(** * env-to-json: the parsing and transformation pipeline

    A shallow embedding of [src/index.js], [src/filters.js] and
    [src/utils.js], and the properties of the pipeline proved over it.

    Strings.  A JavaScript string is a sequence of UTF-16 code units.  The
    development represents it by [string], whose characters stand for the
    code units below 256; every character class of the language that the
    program relies on (white space, line terminators, case mapping, JSON
    escapes) is written out for that range.

    Objects.  The program uses plain objects as ordered maps from keys to
    string values.  An object is represented by the list of its own
    properties in the order [Object.keys] reports them: array-index keys
    first, ascending, then the other keys in creation order. *)

From Stdlib Require Import String Ascii List Bool Arith NArith Lia.
From Stdlib Require Import DecimalString.
From Stdlib Require Import Sorting.Sorted Sorting.Permutation.
Import ListNotations.

Open Scope list_scope.
Open Scope string_scope.

(* ================================================================= *)
(** ** The language: characters, strings, objects *)

Module JS.

(** *** Characters *)

Definition LF  : ascii := "010"%char.
Definition CR  : ascii := "013"%char.
Definition TAB : ascii := "009"%char.
Definition DQ  : ascii := "034"%char.
Definition SQ  : ascii := "039"%char.
Definition BSL : ascii := "092"%char.
Definition HASH : ascii := "035"%char.
Definition EQUALS : ascii := "061"%char.

Definition code (c : ascii) : N := N_of_ascii c.

(** WhiteSpace and LineTerminator code units, as [String.prototype.trim]
    removes them: TAB, LF, VT, FF, CR, SP and NBSP. *)
Definition is_ws (c : ascii) : bool :=
  existsb (N.eqb (code c)) [9; 10; 11; 12; 13; 32; 160]%N.

(** LineTerminator code units, which [.] of a regular expression does not
    match. *)
Definition is_line_terminator (c : ascii) : bool :=
  existsb (N.eqb (code c)) [10; 13]%N.

(** *** String primitives *)

Definition is_empty (s : string) : bool :=
  match s with EmptyString => true | String _ _ => false end.

Definition str1 (c : ascii) : string := String c EmptyString.

Fixpoint trimStart (s : string) : string :=
  match s with
  | EmptyString => EmptyString
  | String c r => if is_ws c then trimStart r else s
  end.

Fixpoint trimEnd (s : string) : string :=
  match s with
  | EmptyString => EmptyString
  | String c r =>
      let r' := trimEnd r in
      if is_ws c && is_empty r' then EmptyString else String c r'
  end.

(** [s.trim()] *)
Definition trim (s : string) : string := trimEnd (trimStart s).

(** [s.split(sep)] for a one-character separator, as the first piece and
    the list of the following pieces: the result is never empty. *)
Fixpoint split_pieces (sep : ascii) (s : string) : string * list string :=
  match s with
  | EmptyString => (EmptyString, [])
  | String c r =>
      let (h, t) := split_pieces sep r in
      if Ascii.eqb c sep then (EmptyString, h :: t) else (String c h, t)
  end.

Definition split (sep : ascii) (s : string) : list string :=
  let (h, t) := split_pieces sep s in h :: t.

(** [s.split(sep)[0]] *)
Definition split_head (sep : ascii) (s : string) : string :=
  fst (split_pieces sep s).

(** [s.indexOf(c)]: [None] stands for -1. *)
Fixpoint indexOf (c : ascii) (s : string) : option nat :=
  match s with
  | EmptyString => None
  | String d r =>
      if Ascii.eqb d c then Some 0
      else match indexOf c r with
           | Some i => Some (S i)
           | None => None
           end
  end.

(** [s.substring(i)] *)
Definition substring_from (i : nat) (s : string) : string :=
  substring i (String.length s - i) s.

(** [s.startsWith(c)] and [s.endsWith(c)] for a one-character argument. *)
Definition startsWith_char (c : ascii) (s : string) : bool :=
  match s with
  | EmptyString => false
  | String d _ => Ascii.eqb d c
  end.

Fixpoint endsWith_char (c : ascii) (s : string) : bool :=
  match s with
  | EmptyString => false
  | String d r => if is_empty r then Ascii.eqb d c else endsWith_char c r
  end.

Fixpoint drop_last (s : string) : string :=
  match s with
  | EmptyString => EmptyString
  | String d r => if is_empty r then EmptyString else String d (drop_last r)
  end.

(** [s.slice(1, -1)]: on a string of length one the start index passes the
    end index and the result is empty. *)
Definition slice_1_m1 (s : string) : string :=
  match s with
  | EmptyString => EmptyString
  | String _ r => drop_last r
  end.

(** [s.replace(/\\e/g, rep)]: every occurrence of the two characters
    backslash, [e] is replaced by [rep], scanning from the left and
    resuming after each match. *)
Fixpoint replace_escape (e rep : ascii) (s : string) : string :=
  match s with
  | EmptyString => EmptyString
  | String c r =>
      match r with
      | EmptyString => s
      | String d r' =>
          if Ascii.eqb c BSL && Ascii.eqb d e
          then String rep (replace_escape e rep r')
          else String c (replace_escape e rep r)
      end
  end.

(** [s.startsWith(p)] *)
Definition startsWith (p s : string) : bool := prefix p s.

(** [a.join(sep)] *)
Definition join (sep : string) (l : list string) : string :=
  String.concat sep l.

(** *** Objects as ordered maps *)

Definition JSObject : Type := list (string * string).

Definition keys (o : JSObject) : list string := map fst o.

(** Own property lookup. *)
Fixpoint own (o : JSObject) (k : string) : option string :=
  match o with
  | [] => None
  | (k', v) :: r => if String.eqb k' k then Some v else own r k
  end.

Definition has_own (o : JSObject) (k : string) : bool :=
  match own o k with Some _ => true | None => false end.

Definition digit_val (c : ascii) : option N :=
  let n := code c in
  if (48 <=? n)%N && (n <=? 57)%N then Some (n - 48)%N else None.

Fixpoint digits_val (acc : N) (s : string) : option N :=
  match s with
  | EmptyString => Some acc
  | String c r =>
      match digit_val c with
      | Some d => digits_val (10 * acc + d)%N r
      | None => None
      end
  end.

(** ToString of a non-negative integer: its decimal digits, without
    leading zeros. *)
Definition decimal (n : N) : string := NilZero.string_of_uint (N.to_uint n).

(** An array index is a key that is the decimal form, as ToString gives
    it, of an integer from 0 to 2^32 - 2. *)
Definition array_index (k : string) : option N :=
  match digits_val 0 k with
  | Some n => if (n <? 4294967295)%N && String.eqb (decimal n) k
              then Some n else None
  | None => None
  end.

Definition obj_replace (o : JSObject) (k v : string) : JSObject :=
  map (fun e => if String.eqb (fst e) k then (fst e, v) else e) o.

Fixpoint insert_index (n : N) (k v : string) (o : JSObject) : JSObject :=
  match o with
  | [] => [(k, v)]
  | e :: r =>
      match array_index (fst e) with
      | Some m => if (m <? n)%N then e :: insert_index n k v r
                  else (k, v) :: o
      | None => (k, v) :: o
      end
  end.

(** CreateDataProperty: an existing own property keeps its place and takes
    the new value; a new array index goes to its numeric place among the
    array indices; any other new key goes last. *)
Definition obj_define (o : JSObject) (k v : string) : JSObject :=
  if has_own o k then obj_replace o k v
  else match array_index k with
       | Some n => insert_index n k v o
       | None => (o ++ [(k, v)])%list
       end.

Definition proto_key : string := "__proto__".

(** [o[k] = v] on an object whose prototype is [Object.prototype].  The
    key [__proto__], when it is not an own property, reaches the accessor
    of the prototype, whose setter ignores a value that is not an object:
    no property is created. *)
Definition obj_set (o : JSObject) (k v : string) : JSObject :=
  if String.eqb k proto_key && negb (has_own o k) then o
  else obj_define o k v.

(** [delete o[k]] *)
Definition obj_delete (o : JSObject) (k : string) : JSObject :=
  filter (fun e => negb (String.eqb (fst e) k)) o.

(** *** Exceptions *)

Inductive result (A : Type) : Type :=
| Ok (a : A)
| Throw (message : string).
Arguments Ok {A} a.
Arguments Throw {A} message.

(** *** Case mapping *)

Definition in_range (lo hi n : N) : bool := ((lo <=? n) && (n <=? hi))%N.

(** [toLowerCase] on one code unit: A-Z and the upper-case letters of
    Latin-1 (U+00C0 to U+00DE without the multiplication sign). *)
Definition lower_char (c : ascii) : ascii :=
  let n := code c in
  if in_range 65 90 n || (in_range 192 222 n && negb (n =? 215)%N)
  then ascii_of_N (n + 32) else c.

Fixpoint toLowerCase (s : string) : string :=
  match s with
  | EmptyString => EmptyString
  | String c r => String (lower_char c) (toLowerCase r)
  end.

(** Canonicalize of a regular expression with the flag [i] and without
    the flag [u]: the code unit of the upper-case form when that form is
    one code unit.  The two code units below 256 whose upper-case form lies
    above 255 (U+00B5 and U+00FF) are kept: no other code unit below 256
    shares their canonical form. *)
Definition canonicalize (c : ascii) : ascii :=
  let n := code c in
  if in_range 97 122 n || (in_range 224 254 n && negb (n =? 247)%N)
  then ascii_of_N (n - 32) else c.

(** *** [Array.prototype.sort] without a comparator, on distinct strings:
    ascending in the order of the code units. *)

Fixpoint insert_sorted (k : string) (l : list string) : list string :=
  match l with
  | [] => [k]
  | h :: t => if String.leb k h then k :: l else h :: insert_sorted k t
  end.

Definition sort (l : list string) : list string :=
  fold_right insert_sorted [] l.

(** *** [JSON.stringify(obj, null, 2)] on an object with string values *)

Definition hex_digit (n : N) : ascii :=
  if (n <? 10)%N then ascii_of_N (48 + n) else ascii_of_N (87 + n).

(** UnicodeEscape: backslash, u and four lower-case hexadecimal digits. *)
Definition unicode_escape (c : ascii) : string :=
  String BSL (String "u" (String "0" (String "0"
    (String (hex_digit (code c / 16)) (str1 (hex_digit (code c mod 16))))))).

Definition quote_char (c : ascii) : string :=
  let n := code c in
  if (n =? 8)%N then String BSL "b"
  else if (n =? 9)%N then String BSL "t"
  else if (n =? 10)%N then String BSL "n"
  else if (n =? 12)%N then String BSL "f"
  else if (n =? 13)%N then String BSL "r"
  else if (n =? 34)%N then String BSL (str1 DQ)
  else if (n =? 92)%N then String BSL (str1 BSL)
  else if (n <? 32)%N then unicode_escape c
  else str1 c.

Fixpoint quote_body (s : string) : string :=
  match s with
  | EmptyString => EmptyString
  | String c r => quote_char c ++ quote_body r
  end.

Definition QuoteJSONString (s : string) : string :=
  String DQ (quote_body s ++ str1 DQ).

Definition json_member (e : string * string) : string :=
  QuoteJSONString (fst e) ++ ": " ++ QuoteJSONString (snd e).

(** The separator of the members: a comma, a line feed and the
    indentation. *)
Definition member_sep : string := "," ++ str1 LF ++ "  ".

(** SerializeJSONObject with the gap of two spaces. *)
Definition JSON_stringify (obj : JSObject) : string :=
  match obj with
  | [] => "{}"
  | _ => "{" ++ str1 LF ++ "  "
         ++ join member_sep (map json_member obj)
         ++ str1 LF ++ "}"
  end.

(** *** [JSON.parse] on the text of an object whose members are strings.
    [None] stands for a SyntaxError, and also for a text outside this
    fragment of the grammar (another kind of value, or an escape of a code
    unit above 255). *)

Definition is_json_ws (c : ascii) : bool :=
  existsb (N.eqb (code c)) [9; 10; 13; 32]%N.

Fixpoint skip_ws (s : string) : string :=
  match s with
  | EmptyString => EmptyString
  | String c r => if is_json_ws c then skip_ws r else s
  end.

Definition hex_val (c : ascii) : option N :=
  let n := code c in
  if in_range 48 57 n then Some (n - 48)%N
  else if in_range 97 102 n then Some (n - 87)%N
  else if in_range 65 70 n then Some (n - 55)%N
  else None.

Definition hex4 (a b c d : ascii) : option N :=
  match hex_val a, hex_val b, hex_val c, hex_val d with
  | Some x, Some y, Some z, Some t => Some (((x * 16 + y) * 16 + z) * 16 + t)%N
  | _, _, _, _ => None
  end.

Definition simple_escape (e : ascii) : option ascii :=
  let n := code e in
  if (n =? 34)%N then Some DQ
  else if (n =? 92)%N then Some BSL
  else if (n =? 47)%N then Some "/"%char
  else if (n =? 98)%N then Some "008"%char
  else if (n =? 102)%N then Some "012"%char
  else if (n =? 110)%N then Some LF
  else if (n =? 114)%N then Some CR
  else if (n =? 116)%N then Some TAB
  else None.

Definition cons_char (c : ascii) (p : option (string * string))
  : option (string * string) :=
  match p with
  | Some (s, rest) => Some (String c s, rest)
  | None => None
  end.

(** The characters of a JSON string after its opening quote: the decoded
    string and the text after the closing quote. *)
Fixpoint parse_string_body (s : string) : option (string * string) :=
  match s with
  | EmptyString => None
  | String c r =>
      if Ascii.eqb c DQ then Some (EmptyString, r)
      else if Ascii.eqb c BSL then
        match r with
        | EmptyString => None
        | String e r1 =>
            if Ascii.eqb e "u" then
              match r1 with
              | String h1 (String h2 (String h3 (String h4 r2))) =>
                  match hex4 h1 h2 h3 h4 with
                  | Some n => if (n <? 256)%N
                              then cons_char (ascii_of_N n) (parse_string_body r2)
                              else None
                  | None => None
                  end
              | _ => None
              end
            else match simple_escape e with
                 | Some d => cons_char d (parse_string_body r1)
                 | None => None
                 end
        end
      else if (code c <? 32)%N then None
      else cons_char c (parse_string_body r)
  end.

Definition parse_json_string (s : string) : option (string * string) :=
  match s with
  | EmptyString => None
  | String c r => if Ascii.eqb c DQ then parse_string_body r else None
  end.

Definition expect (c : ascii) (s : string) : option string :=
  match s with
  | EmptyString => None
  | String d r => if Ascii.eqb d c then Some r else None
  end.

(** The members of an object, from the first one to the closing brace.
    Each member is created with CreateDataProperty.  Every turn consumes
    at least one character, so the length of the text is fuel enough. *)
Fixpoint parse_members (fuel : nat) (s : string) (acc : JSObject)
  : option (JSObject * string) :=
  match fuel with
  | O => None
  | S fuel' =>
      match parse_json_string (skip_ws s) with
      | None => None
      | Some (k, s1) =>
          match expect ":" (skip_ws s1) with
          | None => None
          | Some s2 =>
              match parse_json_string (skip_ws s2) with
              | None => None
              | Some (v, s3) =>
                  let acc' := obj_define acc k v in
                  match skip_ws s3 with
                  | EmptyString => None
                  | String c s4 =>
                      if Ascii.eqb c "," then parse_members fuel' s4 acc'
                      else if Ascii.eqb c "}" then Some (acc', s4)
                      else None
                  end
              end
          end
      end
  end.

Definition JSON_parse (text : string) : option JSObject :=
  match expect "{" (skip_ws text) with
  | None => None
  | Some s =>
      let finish (p : JSObject * string) :=
        if is_empty (skip_ws (snd p)) then Some (fst p) else None in
      match expect "}" (skip_ws s) with
      | Some rest => finish ([], rest)
      | None =>
          match parse_members (String.length s) s [] with
          | Some p => finish p
          | None => None
          end
      end
  end.

(** *** [new RegExp(source, 'i')] and [test]

    The fragment written out here is a disjunction of sequences of pattern
    characters and [.]: a source without any of the syntax characters
    backslash, [^ $ * + ? ( ) [ ] { }].  The behaviour of the engine on
    every other source, a SyntaxError included, is the parameter [ext]. *)

Inductive atom : Type :=
| Lit (c : ascii)
| Dot.

Definition syntax_chars : string := "^$*+?()[]{}".

Fixpoint mem_char (c : ascii) (s : string) : bool :=
  match s with
  | EmptyString => false
  | String d r => Ascii.eqb d c || mem_char c r
  end.

Definition is_syntax_char (c : ascii) : bool :=
  Ascii.eqb c BSL || mem_char c syntax_chars.

Fixpoint in_fragment (source : string) : bool :=
  match source with
  | EmptyString => true
  | String c r => negb (is_syntax_char c) && in_fragment r
  end.

Fixpoint atoms_of (s : string) : list atom :=
  match s with
  | EmptyString => []
  | String c r => (if Ascii.eqb c "." then Dot else Lit c) :: atoms_of r
  end.

Definition atom_matches (a : atom) (c : ascii) : bool :=
  match a with
  | Lit p => Ascii.eqb (canonicalize p) (canonicalize c)
  | Dot => negb (is_line_terminator c)
  end.

Fixpoint match_here (a : list atom) (s : string) : bool :=
  match a with
  | [] => true
  | x :: a' =>
      match s with
      | EmptyString => false
      | String c r => atom_matches x c && match_here a' r
      end
  end.

Fixpoint match_anywhere (a : list atom) (s : string) : bool :=
  match_here a s
  || match s with
     | EmptyString => false
     | String _ r => match_anywhere a r
     end.

Definition fragment_test (source : string) (s : string) : bool :=
  existsb (fun alt => match_anywhere (atoms_of alt) s) (split "|" source).

Definition RegExp_i (ext : string -> result (string -> bool))
  (source : string) : result (string -> bool) :=
  if in_fragment source then Ok (fragment_test source) else ext source.

End JS.

Import JS.

(* ================================================================= *)
(** ** src/utils.js *)

Module Utils.

Section FileSystem.
(** The file system of the host, through the calls the program makes. *)
Variable World : Type.
Variable existsSync : World -> string -> bool.
Variable readFileSync : World -> string -> result string.
Variable mkdirSync : World -> string -> World * option string.
Variable writeFileSync : World -> string -> string -> World * option string.
Variable dirname : string -> string.

Definition readFile (w : World) (filePath : string) : result string :=
  match readFileSync w filePath with
  | Ok content => Ok content
  | Throw m => Throw ("Failed to read file " ++ filePath ++ ": " ++ m)
  end.

Definition writeFile (w : World) (filePath content : string)
  : World * result unit :=
  let failed m := Throw ("Failed to write file " ++ filePath ++ ": " ++ m) in
  let dir := dirname filePath in
  let (w1, e1) := if existsSync w dir then (w, None) else mkdirSync w dir in
  match e1 with
  | Some m => (w1, failed m)
  | None =>
      let (w2, e2) := writeFileSync w1 filePath content in
      match e2 with
      | Some m => (w2, failed m)
      | None => (w2, Ok tt)
      end
  end.

Definition fileExists (w : World) (filePath : string) : bool :=
  existsSync w filePath.
End FileSystem.

Definition REDACTED : string := "***REDACTED***".

Definition mask_step (test : string -> bool) (masked : JSObject)
  (e : string * string) : JSObject :=
  if test (fst e) || test (snd e) then obj_set masked (fst e) REDACTED
  else masked.

(** The loop runs over the entries of the copy as they are when it starts. *)
Definition maskSecrets (ext : string -> result (string -> bool))
  (obj : JSObject) (redactKeys : list string) : result JSObject :=
  match redactKeys with
  | [] => Ok obj
  | _ =>
      let masked := obj in
      match RegExp_i ext (join "|" redactKeys) with
      | Throw m => Throw m
      | Ok test => Ok (fold_left (mask_step test) masked masked)
      end
  end.

(** The object that [parseArgs] fills. *)
Record Parsed : Type := {
  file : string;
  format : string;
  output : option string;
  whitelist : list string;
  exclude : list string;
  prefix : option string;
  redact : list string;
  generateExample : bool;
  help : bool
}.

Definition initial : Parsed :=
  {| file := ".env"; format := "json"; output := None; whitelist := [];
     exclude := []; prefix := None; redact := []; generateExample := false;
     help := false |}.

(** [arg.split('=')[1]]: under the guards of [parseArgs] the argument has
    an equals sign and the second piece exists. *)
Definition option_value (arg : string) : string :=
  match snd (split_pieces EQUALS arg) with
  | v :: _ => v
  | [] => EmptyString
  end.

(** [arg.split('=')[1].split(',').map(s => s.trim())] *)
Definition option_list (arg : string) : list string :=
  map trim (split "," (option_value arg)).

(** One turn of the loop of [parseArgs]. *)
Definition arg_step (parsed : Parsed) (arg : string) : Parsed :=
  if String.eqb arg "--help" || String.eqb arg "-h" then
    {| file := file parsed; format := format parsed; output := output parsed;
       whitelist := whitelist parsed; exclude := exclude parsed;
       prefix := prefix parsed; redact := redact parsed;
       generateExample := generateExample parsed; help := true |}
  else if startsWith "--format=" arg then
    {| file := file parsed; format := option_value arg;
       output := output parsed; whitelist := whitelist parsed;
       exclude := exclude parsed; prefix := prefix parsed;
       redact := redact parsed; generateExample := generateExample parsed;
       help := help parsed |}
  else if startsWith "--output=" arg then
    {| file := file parsed; format := format parsed;
       output := Some (option_value arg); whitelist := whitelist parsed;
       exclude := exclude parsed; prefix := prefix parsed;
       redact := redact parsed; generateExample := generateExample parsed;
       help := help parsed |}
  else if startsWith "--whitelist=" arg then
    {| file := file parsed; format := format parsed; output := output parsed;
       whitelist := option_list arg; exclude := exclude parsed;
       prefix := prefix parsed; redact := redact parsed;
       generateExample := generateExample parsed; help := help parsed |}
  else if startsWith "--exclude=" arg then
    {| file := file parsed; format := format parsed; output := output parsed;
       whitelist := whitelist parsed; exclude := option_list arg;
       prefix := prefix parsed; redact := redact parsed;
       generateExample := generateExample parsed; help := help parsed |}
  else if startsWith "--prefix=" arg then
    {| file := file parsed; format := format parsed; output := output parsed;
       whitelist := whitelist parsed; exclude := exclude parsed;
       prefix := Some (option_value arg); redact := redact parsed;
       generateExample := generateExample parsed; help := help parsed |}
  else if startsWith "--redact=" arg then
    {| file := file parsed; format := format parsed; output := output parsed;
       whitelist := whitelist parsed; exclude := exclude parsed;
       prefix := prefix parsed; redact := option_list arg;
       generateExample := generateExample parsed; help := help parsed |}
  else if String.eqb arg "--generate-example" then
    {| file := file parsed; format := format parsed; output := output parsed;
       whitelist := whitelist parsed; exclude := exclude parsed;
       prefix := prefix parsed; redact := redact parsed;
       generateExample := true; help := help parsed |}
  else if negb (startsWith "--" arg) && is_empty (file parsed) then
    {| file := arg; format := format parsed; output := output parsed;
       whitelist := whitelist parsed; exclude := exclude parsed;
       prefix := prefix parsed; redact := redact parsed;
       generateExample := generateExample parsed; help := help parsed |}
  else if negb (startsWith "--" arg) then
    {| file := arg; format := format parsed; output := output parsed;
       whitelist := whitelist parsed; exclude := exclude parsed;
       prefix := prefix parsed; redact := redact parsed;
       generateExample := generateExample parsed; help := help parsed |}
  else parsed.

Definition parseArgs (args : list string) : Parsed :=
  fold_left arg_step args initial.

(** The text that [showHelp] prints. *)
Definition help_text : string :=
  join (str1 LF)
    [EmptyString;
     "env-to-json - Convert .env files to JSON/YAML";
     EmptyString;
     "Usage:";
     "  env-to-json [file] [options]";
     EmptyString;
     "Options:";
     "  --format=json|yaml|js     Output format (default: json)";
     "  --output=filename         Save to file instead of stdout";
     "  --whitelist=KEY1,KEY2     Only include these keys";
     "  --exclude=KEY1,KEY2       Exclude these keys";
     "  --prefix=PREFIX_          Only keys starting with prefix";
     "  --redact=PASS,SECRET      Redact sensitive keys/values";
     "  --generate-example        Generate .env.example file";
     "  --help, -h               Show this help";
     EmptyString;
     "Examples:";
     "  env-to-json                              # Convert .env to JSON";
     "  env-to-json .env.local --format=yaml     # Convert to YAML";
     "  env-to-json --whitelist=PORT,DB_HOST     # Filter specific keys";
     "  env-to-json --exclude=SECRET --output=config.json";
     "  env-to-json --prefix=REACT_APP_ --format=yaml";
     "  env-to-json --redact=PASSWORD,TOKEN --format=json";
     "  env-to-json --generate-example";
     EmptyString].

End Utils.

(* ================================================================= *)
(** ** src/filters.js *)

Module Filters.

Record Options : Type := {
  whitelist : option (list string);
  exclude : option (list string);
  prefix : option string
}.

(** Truth value of an optional array: an array, even empty, is true. *)
Definition nonempty (l : option (list string)) : bool :=
  match l with
  | Some (_ :: _) => true
  | _ => false
  end.

(** Truth value of an optional string: the empty string is false. *)
Definition truthy (s : option string) : bool :=
  match s with
  | Some s => negb (is_empty s)
  | None => false
  end.

(** The elements of an optional array. *)
Definition listed (l : option (list string)) : list string :=
  match l with Some l => l | None => [] end.

Definition not_a_function : string := "env.hasOwnProperty is not a function".

(** The loop of [applyWhitelist].  [env.hasOwnProperty] is looked up on
    [env] itself first: an own property of that name, a string, is not
    callable and the call throws a TypeError. *)
Fixpoint whitelist_loop (env : JSObject) (keys : list string)
  (filtered : JSObject) : result JSObject :=
  match keys with
  | [] => Ok filtered
  | key :: rest =>
      if has_own env "hasOwnProperty" then Throw not_a_function
      else match own env key with
           | Some v => whitelist_loop env rest (obj_set filtered key v)
           | None => whitelist_loop env rest filtered
           end
  end.

Definition applyWhitelist (env : JSObject) (whitelist : option (list string))
  : result JSObject :=
  if negb (nonempty whitelist) then Ok env
  else whitelist_loop env (listed whitelist) [].

Definition applyExclude (env : JSObject) (exclude : option (list string))
  : JSObject :=
  if negb (nonempty exclude) then env
  else fold_left obj_delete (listed exclude) env.

Definition prefix_step (p : string) (filtered : JSObject)
  (e : string * string) : JSObject :=
  if startsWith p (fst e) then obj_set filtered (fst e) (snd e) else filtered.

Definition applyPrefix (env : JSObject) (prefix : option string) : JSObject :=
  match prefix with
  | Some p => if is_empty p then env else fold_left (prefix_step p) env []
  | None => env
  end.

Definition applyFilters (env : JSObject) (options : Options)
  : result JSObject :=
  let filtered := env in
  let filtered :=
    if truthy (prefix options) then applyPrefix filtered (prefix options)
    else filtered in
  match (if nonempty (whitelist options)
         then applyWhitelist env (whitelist options)
         else Ok filtered) with
  | Throw m => Throw m
  | Ok filtered =>
      Ok (if nonempty (exclude options)
          then applyExclude filtered (exclude options)
          else filtered)
  end.

Record Validation : Type := {
  valid : bool;
  errors : list string
}.

Definition is_empty_array (l : option (list string)) : bool :=
  match l with
  | Some [] => true
  | _ => false
  end.

Definition is_some {A : Type} (x : option A) : bool :=
  match x with Some _ => true | None => false end.

(** The validation, with the warnings it prints.  The prefix is a string
    by its type, so the third test of the source never adds an error. *)
Definition validateFilters (options : Options) : Validation * list string :=
  let warnings :=
    if is_some (whitelist options) && truthy (prefix options)
    then ["Warning: Both whitelist and prefix specified. Whitelist takes precedence."]
    else [] in
  let errors :=
    ((if is_empty_array (whitelist options)
      then ["Whitelist cannot be empty when specified"] else [])
     ++ (if is_empty_array (exclude options)
         then ["Exclude list cannot be empty when specified"] else []))%list in
  ({| valid := match errors with [] => true | _ => false end;
      errors := errors |}, warnings).

(** The prefix as [validateFilters] may receive it: null or undefined, a
    string, or a value of another type, of which the truth value is what
    the function looks at. *)
Inductive PrefixValue : Type :=
| PrefixAbsent
| PrefixString (s : string)
| PrefixOther (truth : bool).

Definition prefix_truthy (p : PrefixValue) : bool :=
  match p with
  | PrefixAbsent => false
  | PrefixString s => negb (is_empty s)
  | PrefixOther truth => truth
  end.

Definition prefix_value (p : option string) : PrefixValue :=
  match p with Some s => PrefixString s | None => PrefixAbsent end.

(** [validateFilters] with its three tests, on a whitelist and an exclude
    list that are arrays or absent and any prefix. *)
Definition validateFilters_any (whitelist exclude : option (list string))
  (prefix : PrefixValue) : Validation * list string :=
  let warnings :=
    if is_some whitelist && prefix_truthy prefix
    then ["Warning: Both whitelist and prefix specified. Whitelist takes precedence."]
    else [] in
  let errors :=
    ((if is_empty_array whitelist
      then ["Whitelist cannot be empty when specified"] else [])
     ++ (if is_empty_array exclude
         then ["Exclude list cannot be empty when specified"] else [])
     ++ (match prefix with
         | PrefixOther _ => ["Prefix must be a string"]
         | _ => []
         end))%list in
  ({| valid := match errors with [] => true | _ => false end;
      errors := errors |}, warnings).

End Filters.

(* ================================================================= *)
(** ** src/index.js *)

Module Index.

(** The chain of [replace] calls on the value. *)
Definition unescape (value : string) : string :=
  replace_escape SQ SQ
    (replace_escape DQ DQ
      (replace_escape BSL BSL
        (replace_escape "t"%char TAB
          (replace_escape "r"%char CR
            (replace_escape "n"%char LF value))))).

(** [line.split('#')[0].trim()] *)
Definition strip_comment (line : string) : string :=
  trim (split_head HASH line).

Definition strip_quotes (value : string) : string :=
  if (startsWith_char DQ value && endsWith_char DQ value)
     || (startsWith_char SQ value && endsWith_char SQ value)
  then slice_1_m1 value
  else value.

(** One turn of the loop up to the assignment: the key and the value that
    the line assigns, or [None] when the turn ends in [continue]. *)
Definition parse_line (line0 : string) : option (string * string) :=
  let line := strip_comment line0 in
  if is_empty line then None
  else match indexOf EQUALS line with
       | None => None
       | Some equalIndex =>
           let key := trim (substring 0 equalIndex line) in
           let value := trim (substring_from (equalIndex + 1) line) in
           Some (key, unescape (strip_quotes value))
       end.

Definition parse_step (env : JSObject) (line : string) : JSObject :=
  match parse_line line with
  | None => env
  | Some (key, value) => obj_set env key value
  end.

Definition parseEnv (content : string) : JSObject :=
  fold_left parse_step (split LF content) [].

(** The passes of [unescape], in their order: the character after the
    backslash and its replacement. *)
Definition escapes : list (ascii * ascii) :=
  [("n"%char, LF); ("r"%char, CR); ("t"%char, TAB);
   (BSL, BSL); (DQ, DQ); (SQ, SQ)].

Definition generateExample (env : JSObject) : string :=
  let lines := map (fun key : string => (key ++ "=")%string) (sort (keys env)) in
  (join (str1 LF) lines ++ str1 LF)%string.

(** [envFile.replace(/\.env.*$/, '.env.example')]: the match starts at the
    first occurrence of [.env] from which no line terminator follows, and
    runs to the end of the string. *)
Fixpoint no_line_terminator (s : string) : bool :=
  match s with
  | EmptyString => true
  | String c r => negb (is_line_terminator c) && no_line_terminator r
  end.

Fixpoint example_path (envFile : string) : string :=
  if startsWith ".env" envFile && no_line_terminator envFile
  then ".env.example"
  else match envFile with
       | EmptyString => EmptyString
       | String c r => String c (example_path r)
       end.

Record Options : Type := {
  file : string;
  format : string;
  output : option string;
  whitelist : list string;
  exclude : list string;
  prefix : option string;
  redact : list string;
  shouldGenerateExample : bool
}.

(** The defaults of the destructuring in [convertEnv]. *)
Definition default_options : Options :=
  {| file := ".env"; format := "json"; output := None; whitelist := [];
     exclude := []; prefix := None; redact := [];
     shouldGenerateExample := false |}.

Record ConversionResult : Type := {
  success : bool;
  data : option string;
  error : option string;
  message : option string
}.

Definition failure (m : string) : ConversionResult :=
  {| success := false; data := None; error := Some m; message := None |}.

Section Conversion.
Variable World : Type.
Variable existsSync : World -> string -> bool.
Variable readFileSync : World -> string -> result string.
Variable mkdirSync : World -> string -> World * option string.
Variable writeFileSync : World -> string -> string -> World * option string.
Variable dirname : string -> string.
(** [yaml.dump] of js-yaml with the options of the call. *)
Variable yaml_dump : JSObject -> string.
(** The regular expression engine outside the fragment of [JS.RegExp_i]. *)
Variable regexp_ext : string -> result (string -> bool).

Let fileExists := Utils.fileExists World existsSync.
Let readFile := Utils.readFile World readFileSync.
Let writeFile :=
  Utils.writeFile World existsSync mkdirSync writeFileSync dirname.

Definition formatOutput (obj : JSObject) (format : string) : result string :=
  let f := toLowerCase format in
  if String.eqb f "json" then Ok (JSON_stringify obj)
  else if String.eqb f "yaml" then Ok (yaml_dump obj)
  else if String.eqb f "js"
  then Ok ("module.exports = " ++ JSON_stringify obj ++ ";")
  else Throw ("Unsupported format: " ++ format
              ++ ". Supported formats: json, yaml, js").

(** What a call leaves behind: the descriptor it returns, the file
    system, and the warnings printed. *)
Record Outcome : Type := {
  returned : ConversionResult;
  world : World;
  warnings : list string
}.

Definition finish (r : ConversionResult) (w : World) (ws : list string)
  : Outcome :=
  {| returned := r; world := w; warnings := ws |}.

Definition some_if_nonempty (l : list string) : option (list string) :=
  match l with [] => None | _ => Some l end.

Definition convertEnv (w : World) (options : Options) : Outcome :=
  let filterOptions :=
    {| Filters.whitelist := some_if_nonempty (whitelist options);
       Filters.exclude := some_if_nonempty (exclude options);
       Filters.prefix :=
         if Filters.truthy (prefix options) then prefix options else None |} in
  let (filterValidation, ws) := Filters.validateFilters filterOptions in
  if negb (Filters.valid filterValidation) then
    finish (failure ("Filter validation failed: "
                     ++ join ", " (Filters.errors filterValidation))) w ws
  else
    let resolved :=
      if fileExists w (file options) then Some (file options, ws)
      else if negb (String.eqb (file options) ".env") && fileExists w ".env"
      then Some (".env",
                 (ws ++ [("File " ++ file options
                          ++ " not found, using .env instead")%string])%list)
      else None in
    match resolved with
    | None =>
        finish (failure ("Environment file not found: " ++ file options)) w ws
    | Some (envFile, ws) =>
        match readFile w envFile with
        | Throw m => finish (failure m) w ws
        | Ok content =>
            let env := parseEnv content in
            if shouldGenerateExample options then
              let exampleContent := generateExample env in
              let exampleFile := example_path envFile in
              match writeFile w exampleFile exampleContent with
              | (w', Throw m) => finish (failure m) w' ws
              | (w', Ok _) =>
                  finish {| success := true;
                            message := Some ("Generated " ++ exampleFile);
                            data := Some exampleContent;
                            error := None |} w' ws
              end
            else
              match Filters.applyFilters env
                      {| Filters.whitelist := Some (whitelist options);
                         Filters.exclude := Some (exclude options);
                         Filters.prefix := prefix options |} with
              | Throw m => finish (failure m) w ws
              | Ok env =>
                  match (match redact options with
                         | [] => Ok env
                         | _ => Utils.maskSecrets regexp_ext env (redact options)
                         end) with
                  | Throw m => finish (failure m) w ws
                  | Ok env =>
                      match formatOutput env (format options) with
                      | Throw m => finish (failure m) w ws
                      | Ok formattedOutput =>
                          match output options with
                          | Some out =>
                              if is_empty out then
                                finish {| success := true;
                                          data := Some formattedOutput;
                                          error := None; message := None |} w ws
                              else
                                match writeFile w out formattedOutput with
                                | (w', Throw m) => finish (failure m) w' ws
                                | (w', Ok _) =>
                                    finish {| success := true;
                                              message := Some ("Output written to " ++ out);
                                              data := Some formattedOutput;
                                              error := None |} w' ws
                                end
                          | None =>
                              finish {| success := true;
                                        data := Some formattedOutput;
                                        error := None; message := None |} w ws
                          end
                      end
                  end
              end
        end
    end.

(** [loadEnv]: no fallback to the default file. *)
Definition loadEnv (w : World) (filePath : string) : result JSObject :=
  if negb (fileExists w filePath)
  then Throw ("Environment file not found: " ++ filePath)
  else match readFile w filePath with
       | Throw m => Throw m
       | Ok content => Ok (parseEnv content)
       end.

End Conversion.

End Index.

(* ================================================================= *)
(** ** bin/cli.js *)

Module Cli.

(** The options object that [main] hands to [convertEnv]: the object that
    [parseArgs] returns; [convertEnv] does not read its field [help]. *)
Definition options_of (p : Utils.Parsed) : Index.Options :=
  {| Index.file := Utils.file p; Index.format := Utils.format p;
     Index.output := Utils.output p; Index.whitelist := Utils.whitelist p;
     Index.exclude := Utils.exclude p; Index.prefix := Utils.prefix p;
     Index.redact := Utils.redact p;
     Index.shouldGenerateExample := Utils.generateExample p |}.

Definition validFormats : list string := ["json"; "yaml"; "js"].

(** [validFormats.includes(format)] *)
Definition includes (l : list string) (s : string) : bool :=
  existsb (String.eqb s) l.

Section Main.
Variable World : Type.
Variable existsSync : World -> string -> bool.
Variable readFileSync : World -> string -> result string.
Variable mkdirSync : World -> string -> World * option string.
Variable writeFileSync : World -> string -> string -> World * option string.
Variable dirname : string -> string.
Variable yaml_dump : JSObject -> string.
Variable regexp_ext : string -> result (string -> bool).

(** A run of the command: the exit code, the lines written to the
    standard output and to the standard error, and the file system. *)
Record Run : Type := {
  exit_code : nat;
  stdout : list string;
  stderr : list string;
  world : World
}.

(** Truth value of an optional string. *)
Definition present (s : option string) : list string :=
  match s with
  | Some s => if is_empty s then [] else [s]
  | None => []
  end.

Definition main (w : World) (args : list string) : Run :=
  let options := Utils.parseArgs args in
  if Utils.help options then
    {| exit_code := 0; stdout := [Utils.help_text]; stderr := []; world := w |}
  else if negb (includes validFormats (Utils.format options)) then
    {| exit_code := 1; stdout := [];
       stderr := [("Error: Invalid format '" ++ Utils.format options
                   ++ "'. Valid formats: " ++ join ", " validFormats)%string];
       world := w |}
  else
    let out :=
      Index.convertEnv World existsSync readFileSync mkdirSync writeFileSync
        dirname yaml_dump regexp_ext w (options_of options) in
    let result := Index.returned World out in
    if negb (Index.success result) then
      {| exit_code := 1; stdout := [];
         stderr := (Index.warnings World out
                    ++ [("Error: " ++ match Index.error result with
                                      | Some e => e
                                      | None => "undefined"
                                      end)%string])%list;
         world := Index.world World out |}
    else
      {| exit_code := 0;
         stdout := (present (Index.message result)
                    ++ (if Filters.truthy (Utils.output options)
                           || Utils.generateExample options
                        then [] else present (Index.data result)))%list;
         stderr := Index.warnings World out;
         world := Index.world World out |}.

End Main.

End Cli.

(* ================================================================= *)
(** ** The wording of the specification

    Definitions that follow the words of the specification, not the code:
    they are what the code is compared with. *)

Module Spec.

(** Everything before the first [#] that no backslash precedes. *)
Fixpoint before_unescaped_hash (escaped : bool) (s : string) : string :=
  match s with
  | EmptyString => EmptyString
  | String c r =>
      if Ascii.eqb c HASH && negb escaped then EmptyString
      else String c (before_unescaped_hash (Ascii.eqb c BSL) r)
  end.

(** A term occurs in a string as a substring, up to the case of letters. *)
Fixpoint prefix_ci (term s : string) : bool :=
  match term with
  | EmptyString => true
  | String a term' =>
      match s with
      | EmptyString => false
      | String b s' =>
          Ascii.eqb (canonicalize a) (canonicalize b) && prefix_ci term' s'
      end
  end.

Fixpoint occurs_ci (term s : string) : bool :=
  prefix_ci term s
  || match s with
     | EmptyString => false
     | String _ r => occurs_ci term r
     end.

(** An entry is sensitive when some term occurs in its key or its value. *)
Definition sensitive (terms : list string) (e : string * string) : bool :=
  existsb (fun t => occurs_ci t (fst e) || occurs_ci t (snd e)) terms.

Definition redact_entry (terms : list string) (e : string * string)
  : string * string :=
  if sensitive terms e then (fst e, Utils.REDACTED) else e.

(** The first occurrence of [.env] and everything after it replaced by
    [.env.example]. *)
Fixpoint replace_from_first_env (s : string) : string :=
  if startsWith ".env" s then ".env.example"
  else match s with
       | EmptyString => EmptyString
       | String c r => String c (replace_from_first_env r)
       end.

(** A string occurs in another one. *)
Fixpoint occurs (p s : string) : bool :=
  startsWith p s
  || match s with
     | EmptyString => false
     | String _ r => occurs p r
     end.

Definition mem (k : string) (l : list string) : bool :=
  existsb (String.eqb k) l.

(** A list of keys without the later occurrences of a repeated key. *)
Fixpoint first_occurrences (seen l : list string) : list string :=
  match l with
  | [] => []
  | k :: r => if mem k seen then first_occurrences seen r
              else k :: first_occurrences (seen ++ [k])%list r
  end.

(** The keys of a whitelist that a mapping has, in the order of the
    whitelist. *)
Definition whitelist_order (env : JSObject) (whitelist : list string)
  : list string :=
  first_occurrences [] (filter (has_own env) whitelist).

(** The pattern of the example path matches at the head of a string:
    [.env] stands there and no line terminator follows up to the end. *)
Definition matches_here (s : string) : bool :=
  startsWith ".env" s && Index.no_line_terminator s.

(** No match begins at a position inside [pre], in the string [pre]
    followed by [s]. *)
Fixpoint unmatched (pre s : string) : bool :=
  match pre with
  | EmptyString => true
  | String c r => negb (matches_here (pre ++ s)) && unmatched r s
  end.

End Spec.

(** The order of the own keys of an object: an array index comes before
    every greater array index and before every other key. *)
Definition key_before (k1 k2 : string) : bool :=
  match array_index k1, array_index k2 with
  | Some a, Some b => (a <? b)%N
  | Some _, None => true
  | None, Some _ => false
  | None, None => true
  end.

(** A list of properties is an object when no key is repeated, the array
    indices come first and ascend, and the other keys follow. *)
Fixpoint well_formed (o : JSObject) : bool :=
  match o with
  | [] => true
  | e :: r =>
      forallb (fun e' => negb (String.eqb (fst e') (fst e))
                         && key_before (fst e) (fst e')) r
      && well_formed r
  end.

(** The descriptor invariant of a conversion result. *)
Definition descriptor_ok (r : Index.ConversionResult) : bool :=
  if Index.success r
  then Filters.is_some (Index.data r) || Filters.is_some (Index.message r)
  else Filters.is_some (Index.error r)
       && negb (Filters.is_some (Index.data r))
       && negb (Filters.is_some (Index.message r)).

(** A term of a redaction list without any character that the syntax of
    regular expressions gives a meaning to. *)
Fixpoint plain_term (t : string) : bool :=
  match t with
  | EmptyString => true
  | String c r =>
      negb (is_syntax_char c || Ascii.eqb c "." || Ascii.eqb c "|")
      && plain_term r
  end.

(** A key without white space, [#] and [=]. *)
Fixpoint plain_key (k : string) : bool :=
  match k with
  | EmptyString => true
  | String c r =>
      negb (is_ws c) && negb (Ascii.eqb c HASH) && negb (Ascii.eqb c EQUALS)
      && plain_key r
  end.

(** The test of [parseEnv] for a value between quotes. *)
Definition quote_wrapped (value : string) : bool :=
  (startsWith_char DQ value && endsWith_char DQ value)
  || (startsWith_char SQ value && endsWith_char SQ value).

(** A string that [trim] leaves as it is, at both ends. *)
Definition trimmed (s : string) : bool :=
  String.eqb (trimStart s) s && String.eqb (trimEnd s) s.

(** What holds of every entry of a parsed mapping: the key has no [#],
    no [=], no line feed and no white space around it; the value has no
    [#]. *)
Definition clean_entry (e : string * string) : bool :=
  negb (mem_char HASH (fst e)) && negb (mem_char EQUALS (fst e))
  && negb (mem_char LF (fst e)) && trimmed (fst e)
  && negb (mem_char HASH (snd e)).

(** The options with another input file. *)
Definition with_file (options : Index.Options) (f : string) : Index.Options :=
  {| Index.file := f; Index.format := Index.format options;
     Index.output := Index.output options;
     Index.whitelist := Index.whitelist options;
     Index.exclude := Index.exclude options;
     Index.prefix := Index.prefix options;
     Index.redact := Index.redact options;
     Index.shouldGenerateExample := Index.shouldGenerateExample options |}.

(** The options with another output path. *)
Definition with_output (options : Index.Options) (o : option string)
  : Index.Options :=
  {| Index.file := Index.file options; Index.format := Index.format options;
     Index.output := o;
     Index.whitelist := Index.whitelist options;
     Index.exclude := Index.exclude options;
     Index.prefix := Index.prefix options;
     Index.redact := Index.redact options;
     Index.shouldGenerateExample := Index.shouldGenerateExample options |}.

(** The kinds of command-line arguments. *)
Definition is_help_arg (arg : string) : bool :=
  String.eqb arg "--help" || String.eqb arg "-h".

Definition is_example_arg (arg : string) : bool :=
  String.eqb arg "--generate-example".

Definition positional (arg : string) : bool :=
  negb (is_help_arg arg) && negb (startsWith "--" arg).

(** Ascending in the order of the code units. *)
Definition ascending : list string -> Prop :=
  StronglySorted (fun a b => String.leb a b = true).

(** A file system in memory, for running the orchestrator on examples: a
    map from paths to contents in which every directory exists and no
    call fails but the reading of a missing file.  [yaml_dump] and
    [regexp_ext] stand in for js-yaml and for the rest of the regular
    expression engine. *)
Module MemFS.

Definition World : Type := JSObject.

Definition existsSync (w : World) (path : string) : bool := has_own w path.

Definition readFileSync (w : World) (path : string) : result string :=
  match own w path with
  | Some content => Ok content
  | None => Throw ("ENOENT: no such file or directory, open '" ++ path ++ "'")
  end.

Definition mkdirSync (w : World) (path : string) : World * option string :=
  (w, None).

Definition writeFileSync (w : World) (path content : string)
  : World * option string :=
  (obj_define w path content, None).

Definition dirname (path : string) : string := ".".

Definition yaml_dump (obj : JSObject) : string :=
  String.concat EmptyString
    (map (fun e => fst e ++ ": " ++ snd e ++ str1 LF) obj).

Definition regexp_ext (source : string) : result (string -> bool) :=
  Throw ("Invalid regular expression: /" ++ source ++ "/").

Definition convertEnv : World -> Index.Options -> Index.Outcome World :=
  Index.convertEnv World existsSync readFileSync mkdirSync writeFileSync
    dirname yaml_dump regexp_ext.

Definition loadEnv : World -> string -> result JSObject :=
  Index.loadEnv World existsSync readFileSync.

Definition main : World -> list string -> Cli.Run World :=
  Cli.main World existsSync readFileSync mkdirSync writeFileSync dirname
    yaml_dump regexp_ext.

End MemFS.

(* ================================================================= *)
(** ** Properties *)

Import Index.

(** *** Strings *)

Lemma append_empty_r (s : string) : s ++ EmptyString = s.
Proof. induction s; simpl; congruence. Qed.

Lemma append_assoc (a b c : string) : (a ++ b) ++ c = a ++ (b ++ c).
Proof. induction a; simpl; congruence. Qed.

Lemma length_append (a b : string) :
  String.length (a ++ b) = String.length a + String.length b.
Proof. induction a; simpl; auto. Qed.

Lemma split_head_before (sep : ascii) (pre post : string) :
  mem_char sep pre = false ->
  split_head sep (pre ++ String sep post) = pre.
Proof.
  unfold split_head. induction pre as [|c pre IH]; simpl; intros H.
  - destruct (split_pieces sep post). now rewrite Ascii.eqb_refl.
  - apply orb_false_elim in H as [Hc Hp].
    specialize (IH Hp).
    destruct (split_pieces sep (pre ++ String sep post)) as [h t].
    rewrite Hc. simpl in *. now subst.
Qed.

Lemma split_head_absent (sep : ascii) (s : string) :
  mem_char sep s = false -> split_head sep s = s.
Proof.
  unfold split_head. induction s as [|c s IH]; simpl; intros H; auto.
  apply orb_false_elim in H as [Hc Hs]. specialize (IH Hs).
  destruct (split_pieces sep s) as [h t]. rewrite Hc. simpl in *. now subst.
Qed.

Lemma split_head_clean (sep : ascii) (s : string) :
  mem_char sep (split_head sep s) = false.
Proof.
  unfold split_head. induction s as [|c s IH]; simpl; auto.
  destruct (split_pieces sep s) as [h t].
  destruct (Ascii.eqb c sep) eqn:E; simpl in *; auto.
  now rewrite E.
Qed.

Lemma replace_escape_other (e rep c : ascii) (s : string) :
  Ascii.eqb c BSL = false ->
  replace_escape e rep (String c s) = String c (replace_escape e rep s).
Proof.
  intros H. simpl. rewrite H. destruct s; reflexivity.
Qed.

Lemma replace_escape_keeps (e rep d : ascii) (s : string) :
  Ascii.eqb d e = false ->
  replace_escape e rep (String BSL (String d s))
  = String BSL (replace_escape e rep (String d s)).
Proof.
  intros H. cbn [replace_escape]. rewrite H, andb_false_r. reflexivity.
Qed.

Lemma replace_escape_hit (e rep : ascii) (s : string) :
  replace_escape e rep (String BSL (String e s))
  = String rep (replace_escape e rep s).
Proof.
  cbn [replace_escape]. now rewrite !Ascii.eqb_refl.
Qed.

Lemma replace_escape_app (e rep : ascii) (a s : string) :
  mem_char BSL a = false ->
  replace_escape e rep (a ++ s) = a ++ replace_escape e rep s.
Proof.
  induction a as [|c a IH]; intros H; [reflexivity|].
  simpl in H. apply orb_false_elim in H as [Hc Ha].
  change (String c a ++ s) with (String c (a ++ s)).
  rewrite replace_escape_other by exact Hc.
  now rewrite IH.
Qed.

Lemma unescape_unprotected (a b : string) :
  mem_char BSL a = false ->
  unescape (a ++ String BSL (String BSL (String "n" b)))
  = a ++ String BSL (String LF (unescape b)).
Proof.
  intros Ha. unfold unescape.
  rewrite (replace_escape_app "n" LF) by exact Ha.
  rewrite (replace_escape_keeps "n" LF BSL) by reflexivity.
  rewrite replace_escape_hit.
  repeat (rewrite replace_escape_app by exact Ha;
          rewrite replace_escape_keeps by reflexivity;
          rewrite (replace_escape_other _ _ LF) by reflexivity).
  reflexivity.
Qed.

Lemma indexOf_absent (c : ascii) (s : string) :
  indexOf c s = None <-> mem_char c s = false.
Proof.
  induction s as [|d s IH]; simpl; [tauto|].
  destruct (Ascii.eqb d c); simpl.
  - split; discriminate.
  - destruct (indexOf c s); [split; [discriminate|]|tauto].
    intros H. apply IH in H. discriminate.
Qed.

(** The turn of the loop ends in [continue] exactly on a line that is
    empty after the comment is cut and the rest trimmed, or that has no
    equals sign there. *)
Lemma parse_line_skips (line : string) :
  parse_line line = None
  <-> is_empty (strip_comment line) = true
      \/ mem_char EQUALS (strip_comment line) = false.
Proof.
  unfold parse_line.
  destruct (is_empty (strip_comment line)); [tauto|].
  destruct (indexOf EQUALS (strip_comment line)) eqn:E.
  - split; [discriminate|]. intros [H|H]; [discriminate|].
    apply indexOf_absent in H. congruence.
  - apply indexOf_absent in E. tauto.
Qed.

Open Scope list_scope.

(** *** Objects *)

Lemma own_absent (o : JSObject) (k : string) :
  (forall e, In e o -> fst e <> k) -> own o k = None.
Proof.
  induction o as [|[k' v] o IH]; simpl; intros H; auto.
  destruct (String.eqb_spec k' k) as [E|E].
  - exfalso. apply (H (k', v)); auto.
  - apply IH. intros e He. apply H. now right.
Qed.

Lemma own_present (o : JSObject) (e : string * string) :
  In e o -> has_own o (fst e) = true.
Proof.
  unfold has_own. induction o as [|[k' v] o IH]; simpl; intros H; [tauto|].
  destruct (String.eqb_spec k' (fst e)) as [E|E]; auto.
  destruct H as [H|H]; [subst e; simpl in E; congruence|].
  now apply IH.
Qed.

Lemma has_own_In (o : JSObject) (k : string) :
  has_own o k = true <-> In k (keys o).
Proof.
  unfold has_own, keys. induction o as [|[k' v] o IH]; simpl.
  - split; [discriminate|tauto].
  - destruct (String.eqb_spec k' k) as [E|E].
    + split; auto.
    + rewrite IH. split; [auto|]. intros [H|H]; [congruence|auto].
Qed.

Lemma has_own_app (a b : JSObject) (k : string) :
  has_own (a ++ b) k = has_own a k || has_own b k.
Proof.
  unfold has_own. induction a as [|[k' v] a IH]; simpl; auto.
  destruct (String.eqb k' k); auto.
Qed.

Lemma obj_replace_fresh (o : JSObject) (k v : string) :
  (forall e, In e o -> fst e <> k) -> obj_replace o k v = o.
Proof.
  unfold obj_replace. induction o as [|e o IH]; simpl; intros H; auto.
  destruct (String.eqb_spec (fst e) k) as [E|E].
  - exfalso. apply (H e); auto.
  - f_equal. apply IH. intros x Hx. apply H. now right.
Qed.

Lemma obj_replace_app (a b : JSObject) (k v : string) :
  obj_replace (a ++ b) k v = obj_replace a k v ++ obj_replace b k v.
Proof. apply map_app. Qed.

Lemma keys_obj_replace (o : JSObject) (k v : string) :
  keys (obj_replace o k v) = keys o.
Proof.
  unfold keys, obj_replace. rewrite map_map. apply map_ext.
  intros e. now destruct (String.eqb (fst e) k).
Qed.

Lemma obj_delete_filter (l : list string) (o : JSObject) :
  fold_left obj_delete l o
  = filter (fun e => negb (Spec.mem (fst e) l)) o.
Proof.
  revert o. induction l as [|k l IH]; intros o; simpl.
  - symmetry. apply forallb_filter_id. now apply forallb_forall.
  - rewrite IH. unfold obj_delete.
    induction o as [|e o IHo]; simpl; auto.
    destruct (String.eqb (fst e) k); simpl; auto.
    destruct (Spec.mem (fst e) l); simpl; auto.
    now rewrite IHo.
Qed.

(** *** Well-formed objects *)

Lemma well_formed_app (a b : JSObject) :
  well_formed (a ++ b) = true <->
  well_formed a = true /\ well_formed b = true
  /\ forall x y, In x a -> In y b ->
       fst y <> fst x /\ key_before (fst x) (fst y) = true.
Proof.
  induction a as [|e a IH]; simpl.
  - split; [intros H; repeat split; auto; intros; tauto | tauto].
  - rewrite !andb_true_iff, IH, !forallb_forall. split.
    + intros [H1 (Ha & Hb & Hab)].
      split; [split; [|exact Ha]|split; [exact Hb|]].
      * intros x Hx. apply H1. apply in_or_app. now left.
      * intros x y [Hx|Hx] Hy; [|now apply Hab].
        subst x. specialize (H1 y (in_or_app _ _ _ (or_intror Hy))).
        apply andb_true_iff in H1 as [H1 H1'].
        apply negb_true_iff, String.eqb_neq in H1. now split.
    + intros ([H1 Ha] & Hb & Hab).
      split; [|split; [exact Ha|split; [exact Hb|]]].
      * intros x Hx. apply in_app_or in Hx as [Hx|Hx]; [now apply H1|].
        destruct (Hab e x (or_introl eq_refl) Hx) as [N K].
        rewrite K, andb_true_r. apply negb_true_iff. now apply String.eqb_neq.
      * intros x y Hx Hy. apply Hab; auto.
Qed.

Lemma well_formed_filter (P : string * string -> bool) (o : JSObject) :
  well_formed o = true -> well_formed (filter P o) = true.
Proof.
  induction o as [|e o IH]; simpl; auto.
  rewrite andb_true_iff, forallb_forall. intros [H1 H2].
  destruct (P e); simpl; auto.
  rewrite IH by exact H2. rewrite andb_true_r.
  apply forallb_forall. intros x Hx. apply H1.
  apply filter_In in Hx. tauto.
Qed.

Lemma well_formed_drop (a : JSObject) (e : string * string) (b : JSObject) :
  well_formed (a ++ e :: b) = true -> well_formed (a ++ b) = true.
Proof.
  rewrite !well_formed_app. simpl. rewrite andb_true_iff.
  intros (Ha & [_ Hb] & Hab). repeat split; auto; apply Hab; simpl; auto.
Qed.

Lemma well_formed_NoDup (o : JSObject) :
  well_formed o = true -> NoDup (keys o).
Proof.
  induction o as [|e o IH]; simpl; [constructor|].
  rewrite andb_true_iff, forallb_forall. intros [H1 H2].
  constructor; auto.
  unfold keys. rewrite in_map_iff. intros (x & Ex & Hx).
  specialize (H1 x Hx). apply andb_true_iff in H1 as [H1 _].
  apply negb_true_iff, String.eqb_neq in H1. congruence.
Qed.

Lemma insert_index_last (n : N) (k v : string) (o : JSObject) :
  array_index k = Some n ->
  (forall e, In e o -> key_before (fst e) k = true) ->
  insert_index n k v o = o ++ [(k, v)].
Proof.
  intros Hk. induction o as [|e o IH]; simpl; intros H; auto.
  assert (He := H e (or_introl eq_refl)).
  unfold key_before in He. rewrite Hk in He.
  destruct (array_index (fst e)); [|discriminate].
  rewrite He. f_equal. apply IH. intros x Hx. apply H. now right.
Qed.

(** A property that comes after all the others in a well-formed list is
    created at the end. *)
Lemma obj_define_last (o : JSObject) (k v : string) :
  well_formed (o ++ [(k, v)]) = true ->
  obj_define o k v = o ++ [(k, v)].
Proof.
  intros H. apply well_formed_app in H as (_ & _ & H).
  assert (F : forall e, In e o -> fst e <> k).
  { intros e He E. destruct (H e (k, v) He (or_introl eq_refl)) as [N _].
    simpl in N. congruence. }
  unfold obj_define, has_own. rewrite (own_absent _ _ F).
  destruct (array_index k) eqn:A; auto.
  apply insert_index_last; auto.
  intros e He. now destruct (H e (k, v) He (or_introl eq_refl)).
Qed.

Lemma obj_define_rebuild (l acc : JSObject) :
  well_formed (acc ++ l) = true ->
  fold_left (fun o e => obj_define o (fst e) (snd e)) l acc = acc ++ l.
Proof.
  revert acc. induction l as [|[k v] l IH]; intros acc H; simpl.
  - now rewrite app_nil_r.
  - change (acc ++ (k, v) :: l) with (acc ++ [(k, v)] ++ l) in *.
    rewrite app_assoc in *.
    rewrite obj_define_last.
    + now apply IH.
    + now apply well_formed_app in H as (H & _).
Qed.

(** *** Lookup after an assignment *)

Lemma own_app (a b : JSObject) (k : string) :
  own (a ++ b) k = match own a k with Some v => Some v | None => own b k end.
Proof.
  induction a as [|[k' v] a IH]; simpl; auto.
  destruct (String.eqb k' k); auto.
Qed.

Lemma own_obj_replace_other (o : JSObject) (k v k' : string) :
  k <> k' -> own (obj_replace o k v) k' = own o k'.
Proof.
  intros N. unfold obj_replace.
  induction o as [|[k0 v0] o IH]; simpl; auto.
  destruct (String.eqb_spec k0 k) as [E|E]; simpl; rewrite IH; auto.
  subst k0. now destruct (String.eqb_spec k k').
Qed.

Lemma own_obj_replace_same (o : JSObject) (k v : string) :
  has_own o k = true -> own (obj_replace o k v) k = Some v.
Proof.
  unfold has_own, obj_replace.
  induction o as [|[k0 v0] o IH]; simpl; [discriminate|].
  destruct (String.eqb_spec k0 k) as [E|E]; simpl.
  - subst k0. now rewrite String.eqb_refl.
  - apply String.eqb_neq in E. now rewrite E.
Qed.

Lemma own_obj_replace (o : JSObject) (k v k' : string) :
  has_own o k = true ->
  own (obj_replace o k v) k' = if String.eqb k k' then Some v else own o k'.
Proof.
  intros H. destruct (String.eqb_spec k k') as [<-|N].
  - now apply own_obj_replace_same.
  - now apply own_obj_replace_other.
Qed.

Lemma own_insert_index (n : N) (o : JSObject) (k v k' : string) :
  has_own o k = false ->
  own (insert_index n k v o) k' = if String.eqb k k' then Some v else own o k'.
Proof.
  unfold has_own.
  induction o as [|[k0 v0] o IH]; simpl; auto.
  destruct (String.eqb_spec k0 k) as [E|E]; [discriminate|]. intros H.
  destruct (array_index k0) as [m|]; [destruct (m <? n)%N|]; simpl;
    try rewrite (IH H);
    destruct (String.eqb_spec k k'), (String.eqb_spec k0 k'); congruence.
Qed.

Lemma own_obj_define (o : JSObject) (k v k' : string) :
  own (obj_define o k v) k' = if String.eqb k k' then Some v else own o k'.
Proof.
  unfold obj_define. destruct (has_own o k) eqn:H.
  - now apply own_obj_replace.
  - destruct (array_index k); [now apply own_insert_index|].
    rewrite own_app. simpl. unfold has_own in H.
    destruct (String.eqb_spec k k') as [E|E].
    + subst k'. now destruct (own o k).
    + now destruct (own o k').
Qed.

Lemma own_obj_set (o : JSObject) (k v k' : string) :
  own (obj_set o k v) k'
  = if String.eqb k proto_key && negb (has_own o k) then own o k'
    else if String.eqb k k' then Some v else own o k'.
Proof.
  unfold obj_set.
  destruct (String.eqb k proto_key && negb (has_own o k)); auto.
  apply own_obj_define.
Qed.

Lemma own_filter_key (P : string -> bool) (o : JSObject) (k : string) :
  own (filter (fun e => P (fst e)) o) k = if P k then own o k else None.
Proof.
  induction o as [|[k0 v0] o IH]; simpl; [now destruct (P k)|].
  destruct (P k0) eqn:E; simpl; rewrite IH;
    destruct (String.eqb_spec k0 k); subst; try rewrite E; auto.
Qed.

Lemma mem_In (k : string) (l : list string) :
  Spec.mem k l = true <-> In k l.
Proof.
  unfold Spec.mem. rewrite existsb_exists. split.
  - intros (x & Hx & E). apply String.eqb_eq in E. now subst.
  - intros H. exists k. split; auto. apply String.eqb_refl.
Qed.

Lemma mem_keys (o : JSObject) (k : string) :
  Spec.mem k (keys o) = has_own o k.
Proof.
  apply eq_true_iff_eq. now rewrite mem_In, has_own_In.
Qed.

(** *** The filters *)

Lemma applyExclude_filter (o : JSObject) (ex : option (list string)) :
  Filters.applyExclude o ex
  = filter (fun e => negb (Spec.mem (fst e) (Filters.listed ex))) o.
Proof.
  unfold Filters.applyExclude.
  destruct ex as [[|k l]|]; simpl;
    try (symmetry; apply forallb_filter_id; now apply forallb_forall).
  apply (obj_delete_filter (k :: l)).
Qed.

Lemma whitelist_loop_own (env : JSObject) (wl : list string) :
  forall (f r : JSObject) (k v : string),
    Filters.whitelist_loop env wl f = Ok r ->
    own r k = Some v ->
    (In k wl /\ own env k = Some v) \/ own f k = Some v.
Proof.
  induction wl as [|key rest IH]; simpl; intros f r k v H Hr.
  - injection H as <-. now right.
  - destruct (has_own env "hasOwnProperty"); [discriminate|].
    destruct (own env key) as [v0|] eqn:E.
    + destruct (IH _ _ _ _ H Hr) as [[Hin Hv]|Hf]; [left; auto|].
      rewrite own_obj_set in Hf.
      destruct (String.eqb key proto_key && negb (has_own f key));
        [now right|].
      destruct (String.eqb_spec key k) as [<-|N]; [|now right].
      left. split; [now left|congruence].
    + destruct (IH _ _ _ _ H Hr) as [[Hin Hv]|Hf]; [left|right]; auto.
Qed.

Lemma whitelist_loop_total (env : JSObject) (wl : list string) :
  has_own env "hasOwnProperty" = false ->
  forall f, exists r, Filters.whitelist_loop env wl f = Ok r.
Proof.
  intros H. induction wl as [|key rest IH]; simpl; intros f.
  - now exists f.
  - rewrite H. destruct (own env key); apply IH.
Qed.

Lemma keys_obj_set (f : JSObject) (k v : string) :
  array_index k = None -> k <> proto_key ->
  keys (obj_set f k v) = if has_own f k then keys f else keys f ++ [k].
Proof.
  intros A N. unfold obj_set.
  apply String.eqb_neq in N. rewrite N. simpl.
  unfold obj_define. destruct (has_own f k).
  - apply keys_obj_replace.
  - rewrite A. unfold keys. now rewrite map_app.
Qed.

Lemma whitelist_loop_keys (env : JSObject) (wl : list string) :
  has_own env proto_key = false ->
  (forall k, In k wl -> array_index k = None) ->
  forall f r,
    Filters.whitelist_loop env wl f = Ok r ->
    keys r = keys f ++ Spec.first_occurrences (keys f) (filter (has_own env) wl).
Proof.
  intros P. induction wl as [|key rest IH]; simpl; intros A f r H.
  - injection H as <-. now rewrite app_nil_r.
  - destruct (has_own env "hasOwnProperty"); [discriminate|].
    assert (A' : forall k, In k rest -> array_index k = None) by auto.
    unfold has_own at 1. destruct (own env key) as [v|] eqn:E.
    + assert (N : key <> proto_key).
      { intros ->. unfold has_own in P. now rewrite E in P. }
      rewrite (IH A' _ _ H). simpl. rewrite mem_keys.
      rewrite keys_obj_set by auto.
      destruct (has_own f key); auto.
      rewrite <- app_assoc. reflexivity.
    + now apply IH.
Qed.

Lemma applyPrefix_filter (p : string) (l acc : JSObject) :
  well_formed (acc ++ l) = true ->
  has_own acc proto_key = false ->
  fold_left (Filters.prefix_step p) l acc
  = acc ++ filter (fun e => startsWith p (fst e)
                            && negb (String.eqb (fst e) proto_key)) l.
Proof.
  revert acc. induction l as [|[k v] l IH]; intros acc W P; simpl.
  - now rewrite app_nil_r.
  - unfold Filters.prefix_step at 2. simpl.
    destruct (startsWith p k); simpl.
    + unfold obj_set. destruct (String.eqb_spec k proto_key) as [E|E].
      * rewrite E, P. simpl. apply IH; auto. now apply well_formed_drop in W.
      * simpl. change (acc ++ (k, v) :: l) with (acc ++ [(k, v)] ++ l) in W.
        rewrite app_assoc in W.
        rewrite obj_define_last.
        -- rewrite IH; auto.
           ++ rewrite <- app_assoc. reflexivity.
           ++ rewrite has_own_app, P. simpl. unfold has_own. simpl.
              apply String.eqb_neq in E. now rewrite E.
        -- now apply well_formed_app in W as (W & _).
    + apply IH; auto. now apply well_formed_drop in W.
Qed.

Open Scope string_scope.

(** *** Lines of the form KEY= *)

Lemma plain_key_parts (c : ascii) (k : string) :
  plain_key (String c k) = true ->
  is_ws c = false /\ Ascii.eqb c HASH = false /\ Ascii.eqb c EQUALS = false
  /\ plain_key k = true.
Proof.
  simpl. rewrite !andb_true_iff, !negb_true_iff. tauto.
Qed.

Lemma trimEnd_closed (x : string) (c : ascii) :
  is_ws c = false -> trimEnd (x ++ str1 c) = x ++ str1 c.
Proof.
  intros H. induction x as [|d x IH]; simpl.
  - now rewrite H.
  - rewrite IH. destruct x; simpl; now rewrite andb_false_r.
Qed.

Lemma trimEnd_plain (k : string) : plain_key k = true -> trimEnd k = k.
Proof.
  induction k as [|c k IH]; auto. intros H.
  apply plain_key_parts in H as (W & _ & _ & H).
  simpl. now rewrite W, IH.
Qed.

Lemma trimStart_plain (k s : string) :
  plain_key k = true -> trimStart (k ++ String EQUALS s) = k ++ String EQUALS s.
Proof.
  destruct k as [|c k]; [reflexivity|]. intros H.
  apply plain_key_parts in H as (W & _). simpl. now rewrite W.
Qed.

Lemma trim_plain (k : string) : plain_key k = true -> trim k = k.
Proof.
  intros H. unfold trim.
  replace (trimStart k) with k; [now apply trimEnd_plain|].
  destruct k as [|c k]; auto.
  apply plain_key_parts in H as (W & _). simpl. now rewrite W.
Qed.

Lemma plain_key_chars (k : string) :
  plain_key k = true -> mem_char HASH k = false /\ mem_char EQUALS k = false.
Proof.
  induction k as [|c k IH]; auto. intros H.
  apply plain_key_parts in H as (_ & A & B & H).
  destruct (IH H) as [IH1 IH2]. simpl. now rewrite A, B, IH1, IH2.
Qed.

Lemma indexOf_end (c : ascii) (k s : string) :
  mem_char c k = false ->
  indexOf c (k ++ String c s) = Some (String.length k).
Proof.
  induction k as [|d k IH]; simpl; intros H.
  - now rewrite Ascii.eqb_refl.
  - apply orb_false_elim in H as [Hd Hk]. now rewrite Hd, IH.
Qed.

Lemma substring_head (k s : string) :
  substring 0 (String.length k) (k ++ s) = k.
Proof.
  induction k as [|c k IH]; simpl; [now destruct s|]. now rewrite IH.
Qed.

Lemma substring_tail (k s : string) :
  substring_from (String.length k + 1) (k ++ String EQUALS s) = s.
Proof.
  unfold substring_from. rewrite length_append. simpl.
  replace (String.length k + S (String.length s) - (String.length k + 1))
    with (String.length s) by lia.
  induction k as [|c k IH]; simpl; auto.
  clear. induction s as [|c s IH]; simpl; auto. now rewrite IH.
Qed.

(** A line KEY= with nothing after the equals sign assigns the empty
    string to the key. *)
Lemma parse_line_empty_value (key : string) :
  plain_key key = true ->
  parse_line (key ++ str1 EQUALS) = Some (key, EmptyString).
Proof.
  intros H. destruct (plain_key_chars key H) as [NH NE].
  unfold parse_line, strip_comment.
  rewrite split_head_absent.
  2:{ clear - NH. induction key as [|c k IH]; auto. simpl in *.
      apply orb_false_elim in NH as [A B]. now rewrite A, IH. }
  unfold trim, str1. rewrite trimStart_plain by exact H.
  fold (str1 EQUALS). rewrite (trimEnd_closed key EQUALS eq_refl).
  replace (is_empty (key ++ str1 EQUALS)) with false by now destruct key.
  unfold str1. rewrite indexOf_end by exact NE.
  rewrite substring_head, substring_tail.
  fold (trim key). rewrite trim_plain by exact H. reflexivity.
Qed.

(* ----------------------------------------------------------------- *)
(** *** The parser *)

(** C2, as stated, fails: the line [K=a\#b] is cut before its [#] although
    a backslash precedes it, where the stated rule keeps the whole line. *)
Lemma escaped_hash_starts_comment :
  strip_comment ("K=a" ++ String BSL "#b") = "K=a" ++ str1 BSL
  /\ strip_comment ("K=a" ++ String BSL "#b")
     <> trim (Spec.before_unescaped_hash false ("K=a" ++ String BSL "#b"))
  /\ parseEnv ("K=a" ++ String BSL "#b") = [("K", "a" ++ str1 BSL)].
Proof.
  split; [reflexivity|]. split; [|reflexivity].
  vm_compute. discriminate.
Qed.

(** C2, amended: for every line, the parser drops everything from the
    first [#] onward, whether a backslash precedes that [#] or not and
    whether it stands inside quotes or not, before any further
    processing: the line is handled as its part before the first [#]. *)
Theorem comment_starts_at_first_hash (pre post : string) :
  mem_char HASH pre = false ->
  split_head HASH (pre ++ String HASH post) = pre
  /\ strip_comment (pre ++ String HASH post) = trim pre
  /\ parse_line (pre ++ String HASH post) = parse_line pre
  /\ forall env, parse_step env (pre ++ String HASH post) = parse_step env pre.
Proof.
  intros H.
  assert (E : strip_comment (pre ++ String HASH post) = strip_comment pre).
  { unfold strip_comment.
    now rewrite split_head_before, split_head_absent. }
  assert (P : parse_line (pre ++ String HASH post) = parse_line pre).
  { unfold parse_line. now rewrite E. }
  split; [now apply split_head_before|].
  split; [rewrite E; unfold strip_comment; now rewrite split_head_absent|].
  split; [exact P|].
  intros env. unfold parse_step. now rewrite P.
Qed.

Lemma comment_starts_at_first_hash_witness :
  mem_char HASH ("K=a" ++ str1 BSL) = false
  /\ parse_line ("K=a" ++ String BSL "#b") = parse_line ("K=a" ++ str1 BSL).
Proof.
  split; [reflexivity|].
  exact (proj1 (proj2 (proj2
    (comment_starts_at_first_hash ("K=a" ++ str1 BSL) "b" eq_refl)))).
Defined.

(** C3, as stated, fails: the value backslash, backslash, n does not come
    out as a backslash followed by n. *)
Lemma double_backslash_n_not_protected :
  unescape (String BSL (String BSL "n")) = String BSL (str1 LF)
  /\ unescape (String BSL (String BSL "n")) <> String BSL "n".
Proof.
  split; [reflexivity|]. vm_compute. discriminate.
Qed.

(** C3, amended: the escape sequences are resolved in the fixed order
    backslash-n, backslash-r, backslash-t, backslash-backslash,
    backslash-double-quote, backslash-single-quote, each pass over the
    result of the passes before it.  The order does not protect the
    characters backslash, backslash, n: the first pass takes the second
    backslash and the n for a line-feed escape, and what is left is a
    backslash followed by a line feed.  The value of the line K=, double
    quote, a, backslash, n, b, double quote has a line feed between a
    and b. *)
Theorem unescape_passes_in_order (a b : string) :
  mem_char BSL a = false ->
  (forall value,
     unescape value
     = fold_left (fun acc p => replace_escape (fst p) (snd p) acc)
                 escapes value)
  /\ unescape (a ++ String BSL (String BSL (String "n" b)))
     = a ++ String BSL (String LF (unescape b))
  /\ parseEnv ("K=" ++ String DQ ("a" ++ String BSL ("nb" ++ str1 DQ)))
     = [("K", "a" ++ String LF "b")].
Proof.
  intros H. split; [reflexivity|]. split; [|reflexivity].
  now apply unescape_unprotected.
Qed.

Lemma unescape_passes_in_order_witness :
  mem_char BSL "x" = false
  /\ unescape ("x" ++ String BSL (String BSL (String "n" "y")))
     = "x" ++ String BSL (String LF "y").
Proof.
  split; [reflexivity|].
  exact (proj1 (proj2 (unescape_passes_in_order "x" "y" eq_refl))).
Defined.

(** What holds of C4: a line that reaches the assignment with a key other
    than [__proto__] gives the mapping an entry with that key and the
    value of the line, also when the value is empty. *)
Lemma parse_step_entry (env : JSObject) (line key value : string) :
  parse_line line = Some (key, value) ->
  key <> proto_key ->
  own (parse_step env line) key = Some value.
Proof.
  intros H N. unfold parse_step. rewrite H, own_obj_set.
  apply String.eqb_neq in N. rewrite N, String.eqb_refl. reflexivity.
Qed.

Lemma parse_empty_value :
  parseEnv "KEY=" = [("KEY", EmptyString)]
  /\ parseEnv ("# only a comment" ++ String LF ("   " ++ String LF "NOEQUALS"))
     = [].
Proof. split; reflexivity. Qed.

(** C4 fails on the code at the line [__proto__=x]: the line is not
    empty and has an equals sign, the turn of the loop reaches the
    assignment with the key [__proto__] and the value [x], and the
    mapping returned has no entry for it; the lines around it give
    theirs. *)
Theorem proto_line_yields_no_entry :
  parse_line "__proto__=x" = Some ("__proto__", "x")
  /\ parseEnv "__proto__=x" = []
  /\ parseEnv ("A=1" ++ String LF ("__proto__=x" ++ String LF "B=2"))
     = [("A", "1"); ("B", "2")].
Proof. repeat split; reflexivity. Qed.

Open Scope list_scope.

Lemma exclude_stage (s : JSObject) (ex : option (list string)) :
  (if Filters.nonempty ex then Filters.applyExclude s ex else s)
  = Filters.applyExclude s ex.
Proof.
  unfold Filters.applyExclude. now destruct (Filters.nonempty ex).
Qed.

Lemma keys_filter (P : string -> bool) (o : JSObject) :
  keys (filter (fun e => P (fst e)) o) = filter P (keys o).
Proof.
  unfold keys. induction o as [|e o IH]; simpl; auto.
  destruct (P (fst e)); simpl; now rewrite IH.
Qed.

Lemma filter_filter {A : Type} (f g : A -> bool) (l : list A) :
  filter f (filter g l) = filter (fun x => g x && f x) l.
Proof.
  induction l as [|x l IH]; simpl; auto.
  destruct (g x); simpl; [destruct (f x)|]; now rewrite IH.
Qed.

Lemma applyPrefix_entries (env : JSObject) (p : option string) :
  well_formed env = true ->
  (if Filters.truthy p then Filters.applyPrefix env p else env)
  = filter (fun e => if Filters.truthy p
                     then startsWith (match p with Some s => s | None => EmptyString end) (fst e)
                          && negb (String.eqb (fst e) proto_key)
                     else true) env.
Proof.
  intros W. destruct p as [p|]; simpl.
  - destruct (is_empty p); simpl.
    + symmetry. apply forallb_filter_id. now apply forallb_forall.
    + now rewrite (applyPrefix_filter p env []).
  - symmetry. apply forallb_filter_id. now apply forallb_forall.
Qed.

(** *** Every mapping that the program builds is well formed *)

Lemma array_index_decimal (k : string) (n : N) :
  array_index k = Some n -> k = decimal n.
Proof.
  unfold array_index. destruct (digits_val 0 k) as [m|]; [|discriminate].
  destruct (m <? 4294967295)%N; [|discriminate]. simpl.
  destruct (String.eqb_spec (decimal m) k); [|discriminate].
  congruence.
Qed.

Lemma array_index_inj (k1 k2 : string) (n : N) :
  array_index k1 = Some n -> array_index k2 = Some n -> k1 = k2.
Proof.
  intros H1 H2. apply array_index_decimal in H1, H2. congruence.
Qed.

Lemma key_before_trans (a b c : string) :
  key_before a b = true -> key_before b c = true -> key_before a c = true.
Proof.
  unfold key_before.
  destruct (array_index a), (array_index b), (array_index c);
    try easy.
  rewrite !N.ltb_lt. lia.
Qed.

Lemma well_formed_keys (a b : JSObject) :
  keys a = keys b -> well_formed a = well_formed b.
Proof.
  revert b. induction a as [|x a IH]; intros [|y b] H; try discriminate; auto.
  simpl in H. injection H as Hxy H. simpl. rewrite (IH b H), Hxy. f_equal.
  clear IH. revert b H. induction a as [|u a IHa]; intros [|w b] H;
    try discriminate; auto.
  simpl in H. injection H as Huw H. simpl. now rewrite Huw, (IHa b H).
Qed.

Lemma in_insert_index (n : N) (k v : string) (o : JSObject)
  (x : string * string) :
  In x (insert_index n k v o) <-> x = (k, v) \/ In x o.
Proof.
  induction o as [|e o IH]; simpl; [intuition|].
  destruct (array_index (fst e)) as [m|]; [destruct (m <? n)%N|]; simpl;
    rewrite ?IH; intuition.
Qed.

Lemma well_formed_cons (e : string * string) (o : JSObject) :
  well_formed (e :: o) = true <->
  (forall x, In x o ->
     fst x <> fst e /\ key_before (fst e) (fst x) = true)
  /\ well_formed o = true.
Proof.
  simpl. rewrite andb_true_iff, forallb_forall.
  split; intros [H W]; split; auto; intros x Hx; specialize (H x Hx).
  - apply andb_true_iff in H as [H1 H2].
    apply negb_true_iff, String.eqb_neq in H1. now split.
  - destruct H as [H1 H2]. apply String.eqb_neq in H1. now rewrite H1, H2.
Qed.

Lemma well_formed_insert_index (n : N) (k v : string) (o : JSObject) :
  array_index k = Some n ->
  has_own o k = false ->
  well_formed o = true ->
  well_formed (insert_index n k v o) = true.
Proof.
  intros A. induction o as [|e o IH]; intros F W; [reflexivity|].
  assert (Fe : fst e <> k).
  { intros E. rewrite <- E in F. rewrite (own_present (e :: o) e) in F;
      [discriminate|now left]. }
  assert (Fo : has_own o k = false).
  { destruct (has_own o k) eqn:H; auto. apply has_own_In in H.
    assert (X : has_own (e :: o) k = true)
      by (apply has_own_In; now right).
    congruence. }
  apply well_formed_cons in W as [He W].
  assert (New : forall x, In x (e :: o) ->
                  key_before k (fst e) = true ->
                  fst x <> k /\ key_before k (fst x) = true).
  { intros x [<-|Hx] K; [now split|]. split.
    - intros E. rewrite <- E in Fo.
      rewrite (own_present o x Hx) in Fo. discriminate.
    - apply (key_before_trans k (fst e)); auto. now apply He. }
  cbn [insert_index]. destruct (array_index (fst e)) as [m|] eqn:Ae.
  - destruct (m <? n)%N eqn:L.
    + apply well_formed_cons. split; [|now apply IH].
      intros x Hx. apply in_insert_index in Hx as [->|Hx]; [|now apply He].
      simpl. split; [congruence|]. unfold key_before. now rewrite Ae, A.
    + apply well_formed_cons. split;
        [|apply well_formed_cons; now split].
      intros x Hx. apply New; auto. unfold key_before. rewrite A, Ae.
      apply N.ltb_lt. apply N.ltb_ge in L.
      assert (m <> n); [|lia].
      intros ->. apply Fe. now apply (array_index_inj _ _ n).
  - apply well_formed_cons. split;
      [|apply well_formed_cons; now split].
    intros x Hx. apply New; auto. unfold key_before. now rewrite A, Ae.
Qed.

Lemma well_formed_obj_define (o : JSObject) (k v : string) :
  well_formed o = true -> well_formed (obj_define o k v) = true.
Proof.
  intros W. unfold obj_define. destruct (has_own o k) eqn:H.
  - now rewrite (well_formed_keys _ o (keys_obj_replace o k v)).
  - destruct (array_index k) as [n|] eqn:A;
      [now apply (well_formed_insert_index n)|].
    apply well_formed_app. split; [exact W|]. split; [reflexivity|].
    intros x y Hx [<-|[]]. simpl. split.
    + intros E. rewrite E in H. now rewrite (own_present o x Hx) in H.
    + unfold key_before. rewrite A. now destruct (array_index (fst x)).
Qed.

Lemma well_formed_obj_set (o : JSObject) (k v : string) :
  well_formed o = true -> well_formed (obj_set o k v) = true.
Proof.
  intros W. unfold obj_set.
  destruct (String.eqb k proto_key && negb (has_own o k)); auto.
  now apply well_formed_obj_define.
Qed.

Lemma parse_steps_well_formed (lines : list string) (env : JSObject) :
  well_formed env = true ->
  well_formed (fold_left parse_step lines env) = true.
Proof.
  revert env. induction lines as [|line lines IH]; intros env W; auto.
  simpl. apply IH. unfold parse_step.
  destruct (parse_line line) as [[k v]|]; auto.
  now apply well_formed_obj_set.
Qed.

(** The parser returns a well-formed mapping, without the key
    [__proto__]. *)
Lemma parseEnv_well_formed (content : string) :
  well_formed (parseEnv content) = true.
Proof. now apply parse_steps_well_formed. Qed.

Lemma parse_steps_no_proto (lines : list string) (env : JSObject) :
  has_own env proto_key = false ->
  has_own (fold_left parse_step lines env) proto_key = false.
Proof.
  revert env. induction lines as [|line lines IH]; intros env P; auto.
  simpl. apply IH. unfold parse_step.
  destruct (parse_line line) as [[k v]|]; auto.
  unfold has_own. rewrite own_obj_set.
  destruct (String.eqb_spec k proto_key) as [->|N].
  - rewrite P. simpl. exact P.
  - simpl. exact P.
Qed.

Lemma parseEnv_no_proto (content : string) :
  has_own (parseEnv content) proto_key = false.
Proof. now apply parse_steps_no_proto. Qed.

Lemma whitelist_loop_well_formed (env : JSObject) (wl : list string) :
  forall f r, well_formed f = true ->
              Filters.whitelist_loop env wl f = Ok r ->
              well_formed r = true.
Proof.
  induction wl as [|key rest IH]; simpl; intros f r W H.
  - now injection H as <-.
  - destruct (has_own env "hasOwnProperty"); [discriminate|].
    destruct (own env key) as [v|].
    + apply (IH _ _ (well_formed_obj_set f key v W) H).
    + apply (IH _ _ W H).
Qed.

(** The filters return a mapping unless the whitelist step meets an own
    property [hasOwnProperty]. *)
Lemma applyFilters_total (env : JSObject) (options : Filters.Options) :
  has_own env "hasOwnProperty" = false ->
  exists r, Filters.applyFilters env options = Ok r.
Proof.
  intros H. unfold Filters.applyFilters, Filters.applyWhitelist.
  destruct (Filters.nonempty (Filters.whitelist options)); simpl.
  - destruct (whitelist_loop_total env
                (Filters.listed (Filters.whitelist options)) H [])
      as (r & ->).
    now eexists.
  - now eexists.
Qed.

(** The filters keep a mapping well formed. *)
Lemma applyFilters_well_formed (env : JSObject) (options : Filters.Options)
  (r : JSObject) :
  well_formed env = true ->
  Filters.applyFilters env options = Ok r ->
  well_formed r = true.
Proof.
  intros W H. unfold Filters.applyFilters in H.
  destruct (Filters.nonempty (Filters.whitelist options)) eqn:N.
  - unfold Filters.applyWhitelist in H. rewrite N in H. simpl in H.
    destruct (Filters.whitelist_loop env _ []) as [s|m] eqn:L; [|discriminate].
    injection H as <-. rewrite exclude_stage, applyExclude_filter.
    apply well_formed_filter.
    exact (whitelist_loop_well_formed env _ [] s eq_refl L).
  - injection H as <-. rewrite exclude_stage, applyExclude_filter.
    apply well_formed_filter.
    rewrite applyPrefix_entries by exact W.
    now apply well_formed_filter.
Qed.

(* ----------------------------------------------------------------- *)
(** *** The filter engine *)

Lemma whitelist_loop_lookup (env : JSObject) (wl : list string) :
  has_own env "hasOwnProperty" = false ->
  forall f r k,
    has_own f proto_key = false ->
    Filters.whitelist_loop env wl f = Ok r ->
    own r k
    = if Spec.mem k wl && negb (String.eqb k proto_key) && has_own env k
      then own env k else own f k.
Proof.
  intros HO. induction wl as [|key rest IH]; intros f r k P H.
  - simpl in H. injection H as <-. reflexivity.
  - simpl in H. rewrite HO in H.
    change (Spec.mem k (key :: rest))
      with (String.eqb k key || Spec.mem k rest).
    destruct (own env key) as [v|] eqn:E.
    + assert (P' : has_own (obj_set f key v) proto_key = false).
      { unfold has_own. rewrite own_obj_set.
        destruct (String.eqb_spec key proto_key) as [->|N]; simpl.
        - rewrite P. exact P.
        - exact P. }
      rewrite (IH _ _ k P' H), own_obj_set.
      destruct (Spec.mem k rest && negb (String.eqb k proto_key)
                && has_own env k) eqn:M.
      * apply andb_true_iff in M as [M M3].
        apply andb_true_iff in M as [M1 M2].
        now rewrite M1, M2, M3, orb_true_r.
      * destruct (String.eqb_spec k key) as [->|N]; simpl.
        -- unfold has_own at 2. rewrite E.
           destruct (String.eqb_spec key proto_key) as [->|N']; simpl.
           ++ now rewrite P.
           ++ now rewrite String.eqb_refl.
        -- rewrite M.
           destruct (String.eqb key proto_key && negb (has_own f key)); auto.
           destruct (String.eqb_spec key k); [congruence|auto].
    + rewrite (IH _ _ k P H).
      destruct (String.eqb_spec k key) as [->|N]; simpl; auto.
      unfold has_own. rewrite E. now rewrite !andb_false_r.
Qed.

(** C1: [applyFilters] is the composition of the prefix step, the
    whitelist step and the exclude step in that order.  Without a
    whitelist, the result is the mapping in which first the entries are
    kept whose key starts with the prefix (all of them without a prefix;
    a key __proto__ is lost with one) and then the entries of the exclude
    list are removed.  With a non-empty whitelist the prefix has no effect:
    the whitelist step reads the original mapping and gives each listed
    key, __proto__ apart, the value that the mapping gives it, and the
    exclude step then removes its keys from that result, whitelisted as
    they may be.  With the mapping A:1, B:2, the prefix A and the whitelist
    B, the result is B:2; with the whitelist A, B and the exclude list B,
    it is A:1.  This does not hold for every mapping: on a mapping with an
    own key hasOwnProperty, as the line hasOwnProperty=x gives, a
    non-empty whitelist makes [applyFilters] throw a TypeError, and it
    returns no mapping at all. *)
Theorem applyFilters_composition (env : JSObject) (options : Filters.Options) :
  let wl := Filters.listed (Filters.whitelist options) in
  let ex := Filters.listed (Filters.exclude options) in
  let kept := fun e : string * string => negb (Spec.mem (fst e) ex) in
  let matches := fun e : string * string =>
    match Filters.prefix options with
    | Some p => is_empty p
                || (startsWith p (fst e) && negb (String.eqb (fst e) proto_key))
    | None => true
    end in
  (Filters.nonempty (Filters.whitelist options) = false ->
   well_formed env = true ->
   Filters.applyFilters env options = Ok (filter kept (filter matches env)))
  /\ (Filters.nonempty (Filters.whitelist options) = true ->
      if has_own env "hasOwnProperty"
      then Filters.applyFilters env options = Throw Filters.not_a_function
      else exists s,
             (forall k,
                own s k
                = if Spec.mem k wl && negb (String.eqb k proto_key)
                  then own env k else None)
             /\ Filters.applyFilters env options = Ok (filter kept s)
             /\ forall k,
                  own (filter kept s) k
                  = if Spec.mem k wl && negb (String.eqb k proto_key)
                       && negb (Spec.mem k ex)
                    then own env k else None)
  /\ (Filters.nonempty (Filters.whitelist options) = true ->
      forall p,
        Filters.applyFilters env options
        = Filters.applyFilters env
            {| Filters.whitelist := Filters.whitelist options;
               Filters.exclude := Filters.exclude options;
               Filters.prefix := p |})
  /\ Filters.applyFilters [("A", "1"); ("B", "2")]
       {| Filters.whitelist := Some ["B"]; Filters.exclude := None;
          Filters.prefix := Some "A" |}
     = Ok [("B", "2")]
  /\ Filters.applyFilters [("A", "1"); ("B", "2")]
       {| Filters.whitelist := Some ["A"; "B"]; Filters.exclude := Some ["B"];
          Filters.prefix := None |}
     = Ok [("A", "1")]
  /\ Filters.applyFilters (parseEnv "hasOwnProperty=x")
       {| Filters.whitelist := Some ["A"]; Filters.exclude := None;
          Filters.prefix := None |}
     = Throw Filters.not_a_function.
Proof.
  intros wl ex kept matches.
  split; [|split; [|split; [|repeat split]]].
  - intros N W. unfold Filters.applyFilters. rewrite N.
    rewrite exclude_stage, applyExclude_filter.
    rewrite applyPrefix_entries by exact W.
    f_equal. fold ex. fold kept. f_equal. apply filter_ext. intros e.
    unfold matches, Filters.truthy.
    destruct (Filters.prefix options) as [p|]; [|reflexivity].
    now destruct (is_empty p).
  - intros N. destruct (has_own env "hasOwnProperty") eqn:HO.
    + unfold Filters.applyFilters, Filters.applyWhitelist.
      destruct (Filters.whitelist options) as [[|k l]|]; try discriminate.
      simpl. now rewrite HO.
    + destruct (whitelist_loop_total env wl HO []) as (s & L).
      pose proof (whitelist_loop_lookup env wl HO [] s) as K.
      assert (S : forall k,
                 own s k
                 = if Spec.mem k wl && negb (String.eqb k proto_key)
                   then own env k else None).
      { intros k. rewrite (K k eq_refl L).
        destruct (Spec.mem k wl && negb (String.eqb k proto_key)); auto.
        simpl. unfold has_own. now destruct (own env k). }
      exists s. split; [exact S|]. split.
      * unfold Filters.applyFilters, Filters.applyWhitelist. rewrite N.
        simpl negb. cbv iota. fold wl. rewrite L.
        now rewrite exclude_stage, applyExclude_filter.
      * intros k.
        change (filter kept s)
          with (filter (fun e => (fun k => negb (Spec.mem k ex)) (fst e)) s).
        rewrite own_filter_key, S.
        destruct (Spec.mem k wl && negb (String.eqb k proto_key));
          destruct (Spec.mem k ex); reflexivity.
  - intros N p. unfold Filters.applyFilters. simpl. now rewrite N.
Qed.

Lemma applyFilters_composition_witness :
  Filters.applyFilters
    [("DB_HOST", "h"); ("APP_A", "1"); ("APP_B", "2"); ("APP_C", "3")]
    {| Filters.whitelist := None; Filters.exclude := Some ["APP_B"];
       Filters.prefix := Some "APP_" |}
  = Ok [("APP_A", "1"); ("APP_C", "3")]
  /\ Filters.applyFilters [("A", "1"); ("B", "2")]
       {| Filters.whitelist := Some ["B"]; Filters.exclude := Some ["A"];
          Filters.prefix := Some "A" |}
     = Filters.applyFilters [("A", "1"); ("B", "2")]
         {| Filters.whitelist := Some ["B"]; Filters.exclude := Some ["A"];
            Filters.prefix := None |}.
Proof.
  split.
  - exact (proj1
      (applyFilters_composition
         [("DB_HOST", "h"); ("APP_A", "1"); ("APP_B", "2"); ("APP_C", "3")]
         {| Filters.whitelist := None; Filters.exclude := Some ["APP_B"];
            Filters.prefix := Some "APP_" |}) eq_refl eq_refl).
  - exact (proj1 (proj2 (proj2
      (applyFilters_composition [("A", "1"); ("B", "2")]
         {| Filters.whitelist := Some ["B"]; Filters.exclude := Some ["A"];
            Filters.prefix := Some "A" |}))) eq_refl None).
Defined.

(** C10, as stated, fails: with the keys 1 and 2 whitelisted in the order
    2, 1, the result lists 1 before 2. *)
Lemma whitelist_order_array_indices :
  well_formed [("1", "a"); ("2", "b")] = true
  /\ Filters.applyFilters [("1", "a"); ("2", "b")]
       {| Filters.whitelist := Some ["2"; "1"]; Filters.exclude := None;
          Filters.prefix := None |}
     = Ok [("1", "a"); ("2", "b")]
  /\ keys [("1", "a"); ("2", "b")]
     <> Spec.whitelist_order [("1", "a"); ("2", "b")] ["2"; "1"].
Proof.
  split; [reflexivity|]. split; [reflexivity|]. vm_compute. discriminate.
Qed.

(** C10, amended: for every mapping without an own key [__proto__] (as
    every parsed mapping is) and every non-empty whitelist none of whose
    keys is an array index (the decimal form of an integer below
    2^32 - 1), the mapping returned by [applyFilters] lists its entries in
    the order of the first appearance of their keys in the whitelist,
    skipping the keys that the mapping does not have and the excluded
    ones, not in the original order of the mapping; for every other
    filter combination the result is the original list of entries with
    the filtered ones left out, so the surviving entries keep their
    relative order. *)
Theorem applyFilters_order (env : JSObject) (options : Filters.Options)
  (r : JSObject) :
  well_formed env = true ->
  has_own env proto_key = false ->
  forallb (fun k => negb (Filters.is_some (array_index k)))
          (Filters.listed (Filters.whitelist options)) = true ->
  Filters.applyFilters env options = Ok r ->
  let kept k := negb (Spec.mem k (Filters.listed (Filters.exclude options))) in
  if Filters.nonempty (Filters.whitelist options)
  then keys r
       = filter kept
           (Spec.whitelist_order env (Filters.listed (Filters.whitelist options)))
  else r = filter
             (fun e => (if Filters.truthy (Filters.prefix options)
                        then startsWith (match Filters.prefix options with
                                         | Some p => p
                                         | None => EmptyString
                                         end) (fst e)
                        else true)
                       && kept (fst e)) env.
Proof.
  intros W P A0 H kept.
  assert (A : forall k, In k (Filters.listed (Filters.whitelist options)) ->
                        array_index k = None).
  { intros k Hk. rewrite forallb_forall in A0. specialize (A0 k Hk).
    now destruct (array_index k). }
  clear A0. unfold Filters.applyFilters in H.
  destruct (Filters.nonempty (Filters.whitelist options)) eqn:N.
  - unfold Filters.applyWhitelist in H. rewrite N in H. simpl in H.
    destruct (Filters.whitelist_loop env _ []) as [s|m] eqn:L; [|discriminate].
    injection H as <-. rewrite exclude_stage, applyExclude_filter.
    rewrite (keys_filter kept). f_equal.
    exact (whitelist_loop_keys env _ P A [] s L).
  - injection H as <-. rewrite exclude_stage, applyExclude_filter.
    rewrite applyPrefix_entries by exact W.
    rewrite filter_filter. apply filter_ext_in.
    intros e He. f_equal.
    destruct (Filters.truthy (Filters.prefix options)); auto.
    destruct (String.eqb_spec (fst e) proto_key) as [E|E];
      [|now rewrite andb_true_r].
    apply own_present in He. congruence.
Qed.

Lemma applyFilters_order_witness :
  well_formed [("A", "1"); ("B", "2"); ("C", "3")] = true
  /\ Filters.applyFilters [("A", "1"); ("B", "2"); ("C", "3")]
       {| Filters.whitelist := Some ["C"; "B"; "A"; "C"];
          Filters.exclude := Some ["B"]; Filters.prefix := None |}
     = Ok [("C", "3"); ("A", "1")]
  /\ keys [("C", "3"); ("A", "1")]
     = filter (fun k => negb (Spec.mem k ["B"]))
         (Spec.whitelist_order [("A", "1"); ("B", "2"); ("C", "3")]
            ["C"; "B"; "A"; "C"]).
Proof.
  split; [reflexivity|]. split; [reflexivity|].
  exact (applyFilters_order [("A", "1"); ("B", "2"); ("C", "3")]
           {| Filters.whitelist := Some ["C"; "B"; "A"; "C"];
              Filters.exclude := Some ["B"]; Filters.prefix := None |}
           [("C", "3"); ("A", "1")] eq_refl eq_refl eq_refl eq_refl).
Defined.

Open Scope string_scope.

(** *** Redaction terms and the pattern built from them *)

Lemma plain_term_parts (c : ascii) (t : string) :
  plain_term (String c t) = true ->
  is_syntax_char c = false /\ Ascii.eqb c "." = false
  /\ Ascii.eqb c "|" = false /\ plain_term t = true.
Proof.
  simpl. rewrite andb_true_iff, negb_true_iff, !orb_false_iff. tauto.
Qed.

Lemma plain_term_no_bar (t : string) :
  plain_term t = true -> mem_char "|" t = false.
Proof.
  induction t as [|c t IH]; auto. intros H.
  apply plain_term_parts in H as (_ & _ & B & H).
  simpl. now rewrite B, IH.
Qed.

Lemma plain_term_in_fragment (t : string) :
  plain_term t = true -> in_fragment t = true.
Proof.
  induction t as [|c t IH]; auto. intros H.
  apply plain_term_parts in H as (S & _ & _ & H).
  simpl. now rewrite S, IH.
Qed.

Lemma in_fragment_app (a b : string) :
  in_fragment (a ++ b) = in_fragment a && in_fragment b.
Proof.
  induction a as [|c a IH]; simpl; auto.
  now rewrite IH, andb_assoc.
Qed.

Lemma join_cons (sep t t' : string) (l : list string) :
  join sep (t :: t' :: l) = t ++ sep ++ join sep (t' :: l).
Proof. reflexivity. Qed.

Lemma join_in_fragment (terms : list string) :
  Forall (fun t => plain_term t = true) terms ->
  in_fragment (join "|" terms) = true.
Proof.
  induction 1 as [|t terms Ht Hts IH]; auto.
  destruct terms as [|t' terms]; [now apply plain_term_in_fragment|].
  rewrite join_cons, !in_fragment_app, IH, (plain_term_in_fragment t Ht).
  reflexivity.
Qed.

Lemma split_pieces_absent (sep : ascii) (s : string) :
  mem_char sep s = false -> split_pieces sep s = (s, []).
Proof.
  induction s as [|c s IH]; simpl; auto. intros H.
  apply orb_false_elim in H as [Hc Hs]. now rewrite (IH Hs), Hc.
Qed.

Lemma split_before (sep : ascii) (a b : string) :
  mem_char sep a = false ->
  split sep (a ++ String sep b) = a :: split sep b.
Proof.
  unfold split. induction a as [|c a IH]; simpl; intros H.
  - destruct (split_pieces sep b). now rewrite Ascii.eqb_refl.
  - apply orb_false_elim in H as [Hc Ha]. specialize (IH Ha).
    destruct (split_pieces sep (a ++ String sep b)) as [h t].
    rewrite Hc. destruct (split_pieces sep b). congruence.
Qed.

Lemma split_join (t : string) (terms : list string) :
  Forall (fun t => plain_term t = true) (t :: terms) ->
  split "|" (join "|" (t :: terms)) = t :: terms.
Proof.
  revert t. induction terms as [|t' terms IH]; intros t H.
  - simpl. unfold split. rewrite split_pieces_absent; auto.
    apply plain_term_no_bar. now inversion H.
  - inversion H as [|? ? Ht Hts]; subst.
    change (join "|" (t :: t' :: terms))
      with (t ++ String "|" (join "|" (t' :: terms))).
    rewrite split_before by now apply plain_term_no_bar.
    now rewrite IH.
Qed.

Lemma match_here_plain (t s : string) :
  plain_term t = true -> match_here (atoms_of t) s = Spec.prefix_ci t s.
Proof.
  revert s. induction t as [|c t IH]; intros s H; auto.
  apply plain_term_parts in H as (_ & D & _ & H).
  simpl. rewrite D. destruct s as [|d s]; auto.
  simpl. now rewrite IH.
Qed.

Lemma match_anywhere_plain (t s : string) :
  plain_term t = true -> match_anywhere (atoms_of t) s = Spec.occurs_ci t s.
Proof.
  intros H. induction s as [|d s IH]; simpl.
  - now rewrite (match_here_plain t EmptyString H).
  - now rewrite (match_here_plain t (String d s) H), IH.
Qed.

(** On plain terms the pattern tests for the occurrence of a term. *)
Lemma RegExp_plain (ext : string -> result (string -> bool))
  (t : string) (terms : list string) :
  Forall (fun t => plain_term t = true) (t :: terms) ->
  exists test,
    RegExp_i ext (join "|" (t :: terms)) = Ok test
    /\ forall s, test s = existsb (fun t => Spec.occurs_ci t s) (t :: terms).
Proof.
  intros H. unfold RegExp_i. rewrite join_in_fragment by exact H.
  eexists. split; [reflexivity|]. intros s. unfold fragment_test.
  rewrite split_join by exact H.
  induction H as [|x l Hx Hl IH]; auto.
  cbn [existsb]. now rewrite IH, match_anywhere_plain.
Qed.

Open Scope list_scope.

Lemma mask_loop (test : string -> bool) (todo done : JSObject) :
  NoDup (keys (done ++ todo)) ->
  let g e := if test (fst e) || test (snd e)
             then (fst e, Utils.REDACTED) else e in
  fold_left (Utils.mask_step test) todo (map g done ++ todo)
  = map g (done ++ todo).
Proof.
  intros N g. revert done N.
  induction todo as [|[k v] todo IH]; intros done N; simpl.
  - now rewrite !app_nil_r.
  - assert (E : Utils.mask_step test (map g done ++ (k, v) :: todo) (k, v)
                = map g (done ++ [(k, v)]) ++ todo).
    { unfold Utils.mask_step. rewrite map_app. simpl.
      change (g (k, v))
        with (if test k || test v then (k, Utils.REDACTED) else (k, v)).
      destruct (test k || test v); [|now rewrite <- app_assoc].
      unfold obj_set, obj_define.
      assert (O : has_own (map g done ++ (k, v) :: todo) k = true).
      { apply (own_present _ (k, v)). apply in_or_app. right. now left. }
      rewrite O, andb_false_r.
      unfold keys in N. rewrite map_app in N. simpl in N.
      apply NoDup_remove_2 in N.
      rewrite obj_replace_app. simpl. rewrite String.eqb_refl.
      rewrite !obj_replace_fresh; [now rewrite <- app_assoc| |].
      - intros e He <-. apply N, in_or_app. right. now apply in_map.
      - intros e He <-. apply N, in_or_app. left.
        apply in_map_iff in He as (x & <- & Hx).
        replace (fst (g x)) with (fst x)
          by (unfold g; now destruct (test (fst x) || test (snd x))).
        now apply in_map. }
    rewrite E. rewrite (IH (done ++ [(k, v)])).
    + now rewrite <- app_assoc.
    + now rewrite <- app_assoc.
Qed.

(* ----------------------------------------------------------------- *)
(** *** The redaction engine *)

(** C5, as stated, fails: the term [a.c] occurs neither in the key AXC nor
    in the value v, and the entry is redacted. *)
Lemma redaction_term_is_a_pattern :
  Utils.maskSecrets (fun _ => Throw EmptyString) [("AXC", "v")] ["a.c"]
  = Ok [("AXC", Utils.REDACTED)]
  /\ Spec.sensitive ["a.c"] ("AXC", "v") = false.
Proof. split; reflexivity. Qed.

(** C5, amended: for every mapping and every non-empty list of terms in
    which no term has a character with a meaning in the syntax of regular
    expressions (backslash, [^ $ * + ? ( ) [ ] { } | .]), [maskSecrets]
    replaces by the sentinel [***REDACTED***] the value of exactly those
    entries where some term occurs, up to the case of letters, as a
    substring of the key or of the value; it leaves every other entry
    unchanged, alters no key and no order; and it returns the mapping
    itself when the list of terms is empty. *)
Theorem maskSecrets_plain_terms (ext : string -> result (string -> bool))
  (obj : JSObject) (terms : list string) :
  well_formed obj = true ->
  forallb plain_term terms = true ->
  Utils.maskSecrets ext obj terms
  = Ok (match terms with
        | [] => obj
        | _ => map (Spec.redact_entry terms) obj
        end)
  /\ keys (match terms with [] => obj | _ => map (Spec.redact_entry terms) obj end)
     = keys obj.
Proof.
  intros W P0.
  assert (P : Forall (fun t => plain_term t = true) terms).
  { apply Forall_forall. now apply forallb_forall. }
  clear P0. destruct terms as [|t terms].
  - split; reflexivity.
  - split.
    + unfold Utils.maskSecrets.
      destruct (RegExp_plain ext t terms P) as (test & -> & T).
      f_equal.
      pose proof (mask_loop test obj [] (well_formed_NoDup obj W)) as M.
      simpl in M. rewrite M. clear M.
      apply map_ext. intros e. unfold Spec.redact_entry, Spec.sensitive.
      rewrite !T. clear.
      replace (existsb (fun t0 => Spec.occurs_ci t0 (fst e)) (t :: terms)
               || existsb (fun t0 => Spec.occurs_ci t0 (snd e)) (t :: terms))
        with (existsb (fun t0 => Spec.occurs_ci t0 (fst e)
                                 || Spec.occurs_ci t0 (snd e)) (t :: terms));
        [reflexivity|].
      induction (t :: terms) as [|x l IH]; simpl; auto.
      rewrite IH.
      destruct (Spec.occurs_ci x (fst e)), (Spec.occurs_ci x (snd e));
        simpl; auto; now rewrite ?orb_true_r.
    + unfold keys. rewrite map_map. apply map_ext. intros e.
      unfold Spec.redact_entry. now destruct (Spec.sensitive _ e).
Qed.

Lemma maskSecrets_plain_terms_witness :
  well_formed [("DB_HOST", "localhost"); ("DB_PASSWORD", "x")] = true
  /\ Utils.maskSecrets (fun _ => Throw EmptyString)
       [("DB_HOST", "localhost"); ("DB_PASSWORD", "x")] ["password"]
     = Ok [("DB_HOST", "localhost"); ("DB_PASSWORD", Utils.REDACTED)].
Proof.
  split; [reflexivity|].
  exact (proj1 (maskSecrets_plain_terms (fun _ => Throw EmptyString)
           [("DB_HOST", "localhost"); ("DB_PASSWORD", "x")] ["password"]
           eq_refl eq_refl)).
Defined.

Open Scope string_scope.

(** *** Sorting *)

Lemma leb_trans (s1 s2 s3 : string) :
  String.leb s1 s2 = true -> String.leb s2 s3 = true -> String.leb s1 s3 = true.
Proof.
  revert s2 s3. unfold String.leb.
  induction s1 as [|a s1 IH]; intros [|b s2] [|c s3]; simpl; try easy.
  unfold Ascii.compare.
  destruct (N.compare_spec (N_of_ascii a) (N_of_ascii b)) as [E1|L1|G1];
    destruct (N.compare_spec (N_of_ascii b) (N_of_ascii c)) as [E2|L2|G2];
    destruct (N.compare_spec (N_of_ascii a) (N_of_ascii c)) as [E3|L3|G3];
    try easy; try lia.
  apply IH.
Qed.

Lemma insert_sorted_perm (k : string) (l : list string) :
  Permutation (insert_sorted k l) (k :: l).
Proof.
  induction l as [|h t IH]; simpl; auto.
  destruct (String.leb k h); auto.
  rewrite IH. apply perm_swap.
Qed.

Lemma sort_perm (l : list string) : Permutation (sort l) l.
Proof.
  induction l as [|k l IH]; simpl; auto.
  rewrite insert_sorted_perm. now constructor.
Qed.

Lemma insert_sorted_ascending (k : string) (l : list string) :
  ascending l -> ascending (insert_sorted k l).
Proof.
  unfold ascending. induction 1 as [|h t Ht IH Hh]; simpl.
  - repeat constructor.
  - destruct (String.leb k h) eqn:E.
    + constructor; [now constructor|]. constructor; auto.
      eapply Forall_impl; [|exact Hh]. intros x Hx. simpl in Hx.
      now apply (leb_trans k h x).
    + constructor; auto.
      assert (P : Permutation (insert_sorted k t) (k :: t))
        by apply insert_sorted_perm.
      apply (Permutation_Forall (Permutation_sym P)).
      constructor; auto.
      destruct (String.leb_total k h) as [X|X]; congruence.
Qed.

Lemma sort_ascending (l : list string) : ascending (sort l).
Proof.
  induction l as [|k l IH]; simpl.
  - constructor.
  - now apply insert_sorted_ascending.
Qed.

Lemma join_lines (l : list string) (x : string) :
  join (str1 LF) (x :: l) ++ str1 LF
  = String.concat EmptyString (map (fun s => s ++ str1 LF) (x :: l)).
Proof.
  revert x. induction l as [|y l IH]; intros x.
  - reflexivity.
  - rewrite join_cons.
    change (map (fun s => s ++ str1 LF) (x :: y :: l))
      with ((x ++ str1 LF) :: map (fun s => s ++ str1 LF) (y :: l)).
    change (String.concat EmptyString ((x ++ str1 LF) :: map (fun s => s ++ str1 LF) (y :: l)))
      with ((x ++ str1 LF) ++ EmptyString ++ String.concat EmptyString (map (fun s => s ++ str1 LF) (y :: l))).
    rewrite <- IH. simpl. now rewrite !append_assoc.
Qed.

(** *** The example path *)

Lemma example_path_without_env (envFile : string) :
  Spec.occurs ".env" envFile = false -> example_path envFile = envFile.
Proof.
  induction envFile as [|c r IH]; [reflexivity|].
  intros H. cbn [Spec.occurs] in H. apply orb_false_elim in H as [H1 H2].
  cbn [example_path]. rewrite H1. simpl. now rewrite IH.
Qed.

Lemma example_path_one_line (envFile : string) :
  no_line_terminator envFile = true ->
  example_path envFile = Spec.replace_from_first_env envFile.
Proof.
  induction envFile as [|c r IH]; [reflexivity|].
  intros H. cbn [example_path Spec.replace_from_first_env].
  rewrite H, andb_true_r.
  cbn [no_line_terminator] in H. apply andb_true_iff in H as [_ H].
  now rewrite IH.
Qed.

Lemma example_path_first_match (pre s : string) :
  Spec.matches_here s = true ->
  Spec.unmatched pre s = true ->
  example_path (pre ++ s) = pre ++ ".env.example".
Proof.
  intros M. induction pre as [|c r IH]; intros U.
  - destruct s as [|d s]; [discriminate|].
    cbn [append example_path]. unfold Spec.matches_here in M. now rewrite M.
  - cbn [Spec.unmatched] in U. apply andb_true_iff in U as [U1 U2].
    apply negb_true_iff in U1. unfold Spec.matches_here in U1.
    cbn [append] in *. cbn [example_path]. rewrite U1. now rewrite IH.
Qed.

Lemma example_path_no_match (name : string) :
  Spec.unmatched name EmptyString = true -> example_path name = name.
Proof.
  induction name as [|c r IH]; [reflexivity|]. intros U.
  cbn [Spec.unmatched] in U. apply andb_true_iff in U as [U1 U2].
  apply negb_true_iff in U1. rewrite append_empty_r in U1.
  unfold Spec.matches_here in U1. cbn [example_path]. rewrite U1.
  now rewrite IH.
Qed.

Lemma unmatched_spec (pre s : string) :
  Spec.unmatched pre s = true
  <-> forall a b, pre = a ++ b -> b <> EmptyString ->
                  Spec.matches_here (b ++ s) = false.
Proof.
  induction pre as [|c r IH].
  - split; [|reflexivity]. intros _ a b H N.
    destruct a; [simpl in H; congruence|discriminate].
  - cbn [Spec.unmatched]. rewrite andb_true_iff, negb_true_iff, IH. split.
    + intros [U1 U2] a b H N. destruct a as [|d a].
      * simpl in H. now subst b.
      * simpl in H. injection H as -> ->. now apply (U2 a b).
    + intros H. split.
      * apply (H EmptyString (String c r)); [reflexivity|discriminate].
      * intros a b -> N. apply (H (String c a) b); [reflexivity|exact N].
Qed.

(* ----------------------------------------------------------------- *)
(** *** The orchestrator *)

Ltac split_match :=
  repeat match goal with
         | |- context [match ?x with _ => _ end] => destruct x eqn:?
         end.

Section Orchestrator.
Variable World : Type.
Variable existsSync : World -> string -> bool.
Variable readFileSync : World -> string -> result string.
Variable mkdirSync : World -> string -> World * option string.
Variable writeFileSync : World -> string -> string -> World * option string.
Variable dirname : string -> string.
Variable yaml_dump : JSObject -> string.
Variable regexp_ext : string -> result (string -> bool).

Let convert :=
  convertEnv World existsSync readFileSync mkdirSync writeFileSync dirname
    yaml_dump regexp_ext.
Let writeFile :=
  Utils.writeFile World existsSync mkdirSync writeFileSync dirname.

(** The filter configuration that [convertEnv] builds always passes the
    validation. *)
Lemma built_filters_valid (wl ex : list string) (pf : option string) :
  exists ws,
    Filters.validateFilters
      {| Filters.whitelist := some_if_nonempty wl;
         Filters.exclude := some_if_nonempty ex;
         Filters.prefix := if Filters.truthy pf then pf else None |}
    = ({| Filters.valid := true; Filters.errors := [] |}, ws).
Proof.
  unfold Filters.validateFilters. eexists. simpl.
  destruct wl, ex; reflexivity.
Qed.

(** The example branch, step by step: the file that is read, the path
    that is written and the descriptor that is returned. *)
Lemma example_branch (w : World) (options : Options) (content : string) :
  shouldGenerateExample options = true ->
  existsSync w (file options) || existsSync w ".env" = true ->
  let envFile :=
    if existsSync w (file options) then file options else ".env" in
  readFileSync w envFile = Ok content ->
  let exampleContent := generateExample (parseEnv content) in
  world World (convert w options)
  = fst (writeFile w (example_path envFile) exampleContent)
  /\ returned World (convert w options)
     = match snd (writeFile w (example_path envFile) exampleContent) with
       | Ok _ =>
           {| success := true;
              message := Some ("Generated " ++ example_path envFile);
              data := Some exampleContent;
              error := None |}
       | Throw m => failure m
       end.
Proof.
  intros G E envFile R exampleContent.
  unfold convert, convertEnv.
  destruct (built_filters_valid (whitelist options) (exclude options)
              (prefix options)) as (ws & ->).
  cbn [Filters.valid negb]. unfold Utils.fileExists. subst envFile.
  destruct (existsSync w (file options)) eqn:E1.
  - unfold Utils.readFile. rewrite R, G. fold writeFile. fold exampleContent.
    destruct (writeFile w (example_path (file options)) exampleContent)
      as [w' [u|m]]; split; reflexivity.
  - simpl in E. rewrite E.
    destruct (String.eqb_spec (file options) ".env") as [F|F].
    + rewrite F in E1. congruence.
    + cbn [negb andb]. unfold Utils.readFile. rewrite R, G. fold writeFile.
      fold exampleContent.
      destruct (writeFile w (example_path ".env") exampleContent)
        as [w' [u|m]]; split; reflexivity.
Qed.

(** C8: every result that [convertEnv] returns satisfies the invariant of
    the descriptor: when [success] is false, [error] is set and [data] and
    [message] are absent; when [success] is true, [data] or [message] is
    present. *)
Theorem convertEnv_descriptor (w : World) (options : Options) :
  descriptor_ok (returned World (convert w options)) = true.
Proof.
  unfold convert, convertEnv.
  destruct (built_filters_valid (whitelist options) (exclude options)
              (prefix options)) as (ws & ->).
  cbn [Filters.valid negb].
  split_match; reflexivity.
Qed.

(** C6: when [generateExample] is requested, [convertEnv] reads the
    resolved file, derives the example document from the parsed mapping,
    writes it to the example path and returns it as data with the message
    Generated and the path (or the failure of the write).  The document
    lists every key of the parsed mapping, in ascending order of the code
    units, each as the key followed by an equals sign and nothing else,
    one per line and with a newline at the end (for the mapping B:1, A:2
    it is the two lines A= and B=; for the empty mapping it is one
    newline).  The branch returns before the filters and the redaction,
    so the whitelist, exclude, prefix and redact options have no effect
    on what is returned and written. *)
Theorem example_lists_all_keys (w : World) (options : Options)
  (wl ex : list string) (pf : option string) (rd : list string) :
  shouldGenerateExample options = true ->
  (forall env,
     exists ks,
       Permutation ks (keys env) /\ ascending ks
       /\ generateExample env
          = join (str1 LF) (map (fun k => k ++ "=") ks) ++ str1 LF
       /\ generateExample env
          = match env with
            | [] => str1 LF
            | _ => String.concat EmptyString
                     (map (fun k => k ++ "=" ++ str1 LF) ks)
            end)
  /\ generateExample [("B", "1"); ("A", "2")]
     = "A=" ++ String LF ("B=" ++ str1 LF)
  /\ (let options' :=
        {| file := file options; format := format options;
           output := output options; whitelist := wl; exclude := ex;
           prefix := pf; redact := rd; shouldGenerateExample := true |} in
      returned World (convert w options') = returned World (convert w options)
      /\ world World (convert w options') = world World (convert w options))
  /\ (forall content,
        existsSync w (file options) || existsSync w ".env" = true ->
        let envFile :=
          if existsSync w (file options) then file options else ".env" in
        readFileSync w envFile = Ok content ->
        let exampleContent := generateExample (parseEnv content) in
        let options' :=
          {| file := file options; format := format options;
             output := output options; whitelist := wl; exclude := ex;
             prefix := pf; redact := rd; shouldGenerateExample := true |} in
        world World (convert w options')
        = fst (writeFile w (example_path envFile) exampleContent)
        /\ returned World (convert w options')
           = match snd (writeFile w (example_path envFile) exampleContent)
             with
             | Ok _ =>
                 {| success := true;
                    message := Some ("Generated " ++ example_path envFile);
                    data := Some exampleContent;
                    error := None |}
             | Throw m => failure m
             end)
  /\ (success (returned World (convert w options)) = true ->
      exists envFile content,
        readFileSync w envFile = Ok content
        /\ data (returned World (convert w options))
           = Some (generateExample (parseEnv content))).
Proof.
  intros G. split; [|split; [reflexivity|split; [|split]]].
  - intros env. exists (sort (keys env)).
    split; [apply sort_perm|]. split; [apply sort_ascending|].
    split; [reflexivity|].
    destruct env as [|e env]; [reflexivity|].
    unfold generateExample.
    destruct (sort (keys (e :: env))) as [|k ks] eqn:E.
    + pose proof (sort_perm (keys (e :: env))) as P. rewrite E in P.
      apply Permutation_nil in P. discriminate.
    + change (map (fun key : string => key ++ "=") (k :: ks))
        with ((k ++ "=") :: map (fun key : string => key ++ "=") ks).
      rewrite join_lines. f_equal.
      change ((k ++ "=") :: map (fun key : string => key ++ "=") ks)
        with (map (fun key : string => key ++ "=") (k :: ks)).
      rewrite map_map. apply map_ext. intros a. now rewrite append_assoc.
  - unfold convert, convertEnv. cbn [file format output whitelist exclude
      prefix redact shouldGenerateExample].
    destruct (built_filters_valid wl ex pf) as (ws' & ->).
    destruct (built_filters_valid (whitelist options) (exclude options)
                (prefix options)) as (ws & ->).
    cbn [Filters.valid negb]. rewrite G. unfold Utils.fileExists.
    destruct (existsSync w (file options));
      [|destruct (negb (file options =? ".env")%string && existsSync w ".env")];
      split; split_match; reflexivity.
  - intros content E envFile R exampleContent options'.
    exact (example_branch w options' content eq_refl E R).
  - unfold convert, convertEnv.
    destruct (built_filters_valid (whitelist options) (exclude options)
                (prefix options)) as (ws & ->).
    cbn [Filters.valid negb]. rewrite G. unfold Utils.fileExists.
    destruct (existsSync w (file options));
      [|destruct (negb (file options =? ".env")%string && existsSync w ".env")];
    split_match; cbn; try discriminate; intros _;
      match goal with
      | H : Utils.readFile _ _ _ ?f = Ok ?c |- _ =>
          exists f, c; split; [|reflexivity];
          unfold Utils.readFile in H;
          destruct (readFileSync w f); congruence
      end.
Qed.

(** C9, as stated, fails: in the name [a.env], line feed, [b] nothing is
    replaced, although [.env] occurs in it. *)
Lemma example_path_line_terminator :
  example_path ("a.env" ++ String LF "b") = "a.env" ++ String LF "b"
  /\ example_path ("a.env" ++ String LF "b")
     <> Spec.replace_from_first_env ("a.env" ++ String LF "b").
Proof. split; [reflexivity|]. vm_compute. discriminate. Qed.

(** C9, amended: in the example branch the output path is the name of
    the file that is read in which the part from the first occurrence of
    [.env] that no line terminator follows, to the end, is replaced by
    [.env.example] (a name without such an occurrence is the path as it
    is); in a name without line terminator that is the first occurrence
    of [.env].  The example content is written to that path.
    Consequently, for every input file name without the substring [.env],
    the derived path is the input path itself and the example content is
    written over the input file. *)
Theorem example_written_over_input (w : World) (options : Options)
  (content : string) :
  shouldGenerateExample options = true ->
  existsSync w (file options) || existsSync w ".env" = true ->
  let envFile :=
    if existsSync w (file options) then file options else ".env" in
  readFileSync w envFile = Ok content ->
  let exampleContent := generateExample (parseEnv content) in
  (forall pre s,
     Spec.matches_here s = true ->
     (forall a b, pre = a ++ b -> b <> EmptyString ->
                  Spec.matches_here (b ++ s) = false) ->
     example_path (pre ++ s) = pre ++ ".env.example")
  /\ (forall name,
        (forall a b, name = a ++ b -> b <> EmptyString ->
                     Spec.matches_here b = false) ->
        example_path name = name)
  /\ (forall name,
        no_line_terminator name = true ->
        example_path name = Spec.replace_from_first_env name)
  /\ world World (convert w options)
     = fst (writeFile w (example_path envFile) exampleContent)
  /\ returned World (convert w options)
     = match snd (writeFile w (example_path envFile) exampleContent) with
       | Ok _ =>
           {| success := true;
              message := Some ("Generated " ++ example_path envFile);
              data := Some exampleContent;
              error := None |}
       | Throw m => failure m
       end
  /\ (Spec.occurs ".env" (file options) = false ->
      existsSync w (file options) = true ->
      example_path (file options) = file options
      /\ world World (convert w options)
         = fst (writeFile w (file options) exampleContent)
      /\ returned World (convert w options)
         = match snd (writeFile w (file options) exampleContent) with
           | Ok _ =>
               {| success := true;
                  message := Some ("Generated " ++ file options);
                  data := Some exampleContent;
                  error := None |}
           | Throw m => failure m
           end).
Proof.
  intros G E envFile R exampleContent.
  destruct (example_branch w options content G E R) as [B1 B2].
  fold envFile exampleContent in B1, B2.
  split; [|split; [|split; [exact example_path_one_line|]]].
  - intros pre s M U. apply example_path_first_match; [exact M|].
    now apply unmatched_spec.
  - intros name U. apply example_path_no_match, unmatched_spec.
    intros a b H N. rewrite append_empty_r. now apply (U a b).
  - split; [exact B1|]. split; [exact B2|].
    intros N X. subst envFile. rewrite X in B1, B2.
    rewrite (example_path_without_env _ N) in B1, B2.
    split; [now apply example_path_without_env|]. split; assumption.
Qed.
End Orchestrator.

Lemma example_lists_all_keys_witness :
  shouldGenerateExample
    {| file := "app.env"; format := "json"; output := None; whitelist := [];
       exclude := []; prefix := None; redact := [];
       shouldGenerateExample := true |} = true
  /\ MemFS.readFileSync [("app.env", "B=1" ++ String LF "A=2")] "app.env"
     = Ok ("B=1" ++ String LF "A=2")
  /\ world MemFS.World
       (MemFS.convertEnv [("app.env", "B=1" ++ String LF "A=2")]
          {| file := "app.env"; format := "json"; output := None;
             whitelist := ["A"]; exclude := ["B"]; prefix := Some "X";
             redact := ["A"]; shouldGenerateExample := true |})
     = [("app.env", "B=1" ++ String LF "A=2");
        ("app.env.example", "A=" ++ String LF ("B=" ++ str1 LF))]
  /\ returned MemFS.World
       (MemFS.convertEnv [("app.env", "B=1" ++ String LF "A=2")]
          {| file := "app.env"; format := "json"; output := None;
             whitelist := ["A"]; exclude := ["B"]; prefix := Some "X";
             redact := ["A"]; shouldGenerateExample := true |})
     = {| success := true;
          message := Some "Generated app.env.example";
          data := Some ("A=" ++ String LF ("B=" ++ str1 LF));
          error := None |}.
Proof.
  split; [reflexivity|]. split; [reflexivity|].
  exact (proj1 (proj2 (proj2 (proj2
    (example_lists_all_keys MemFS.World MemFS.existsSync MemFS.readFileSync
       MemFS.mkdirSync MemFS.writeFileSync MemFS.dirname MemFS.yaml_dump
       MemFS.regexp_ext [("app.env", "B=1" ++ String LF "A=2")]
       {| file := "app.env"; format := "json"; output := None;
          whitelist := []; exclude := []; prefix := None; redact := [];
          shouldGenerateExample := true |}
       ["A"] ["B"] (Some "X") ["A"] eq_refl))))
    ("B=1" ++ String LF "A=2") eq_refl eq_refl).
Defined.

Lemma example_written_over_input_witness :
  Spec.occurs ".env" "config" = false
  /\ MemFS.readFileSync [("config", "B=1" ++ String LF "A=2")] "config"
     = Ok ("B=1" ++ String LF "A=2")
  /\ world MemFS.World
       (MemFS.convertEnv [("config", "B=1" ++ String LF "A=2")]
          {| file := "config"; format := "json"; output := None;
             whitelist := []; exclude := []; prefix := None; redact := [];
             shouldGenerateExample := true |})
     = [("config", "A=" ++ String LF ("B=" ++ str1 LF))]
  /\ world MemFS.World
       (MemFS.convertEnv [("app.env.local", "B=1" ++ String LF "A=2")]
          {| file := "app.env.local"; format := "json"; output := None;
             whitelist := []; exclude := []; prefix := None; redact := [];
             shouldGenerateExample := true |})
     = [("app.env.local", "B=1" ++ String LF "A=2");
        ("app.env.example", "A=" ++ String LF ("B=" ++ str1 LF))]
  /\ example_path ("a.env" ++ String LF "b.env.local")
     = "a.env" ++ String LF "b.env.example".
Proof.
  split; [reflexivity|]. split; [reflexivity|]. split; [|split].
  - exact (proj1 (proj2 (proj2 (proj2 (proj2 (proj2 (proj2
      (example_written_over_input MemFS.World MemFS.existsSync
         MemFS.readFileSync MemFS.mkdirSync MemFS.writeFileSync
         MemFS.dirname MemFS.yaml_dump MemFS.regexp_ext
         [("config", "B=1" ++ String LF "A=2")]
         {| file := "config"; format := "json"; output := None;
            whitelist := []; exclude := []; prefix := None; redact := [];
            shouldGenerateExample := true |}
         ("B=1" ++ String LF "A=2") eq_refl eq_refl eq_refl)))))
      eq_refl eq_refl))).
  - exact (proj1 (proj2 (proj2 (proj2
      (example_written_over_input MemFS.World MemFS.existsSync
         MemFS.readFileSync MemFS.mkdirSync MemFS.writeFileSync
         MemFS.dirname MemFS.yaml_dump MemFS.regexp_ext
         [("app.env.local", "B=1" ++ String LF "A=2")]
         {| file := "app.env.local"; format := "json"; output := None;
            whitelist := []; exclude := []; prefix := None; redact := [];
            shouldGenerateExample := true |}
         ("B=1" ++ String LF "A=2") eq_refl eq_refl eq_refl))))).
  - exact (proj1
      (example_written_over_input MemFS.World MemFS.existsSync
         MemFS.readFileSync MemFS.mkdirSync MemFS.writeFileSync
         MemFS.dirname MemFS.yaml_dump MemFS.regexp_ext
         [("config", "B=1" ++ String LF "A=2")]
         {| file := "config"; format := "json"; output := None;
            whitelist := []; exclude := []; prefix := None; redact := [];
            shouldGenerateExample := true |}
         ("B=1" ++ String LF "A=2") eq_refl eq_refl eq_refl)
      ("a.env" ++ String LF "b") ".env.local" eq_refl
      (proj1 (unmatched_spec ("a.env" ++ String LF "b") ".env.local")
         eq_refl)).
Defined.

(** *** JSON text *)

Lemma parse_quote_char (c : ascii) (t : string) :
  parse_string_body (quote_char c ++ t) = cons_char c (parse_string_body t).
Proof.
  destruct c as [[] [] [] [] [] [] [] []]; reflexivity.
Qed.

Lemma parse_quote_body (s rest : string) :
  parse_string_body (quote_body s ++ String DQ rest) = Some (s, rest).
Proof.
  induction s as [|c s IH]; [reflexivity|].
  cbn [quote_body]. rewrite append_assoc, parse_quote_char, IH. reflexivity.
Qed.

Lemma parse_QuoteJSONString (s rest : string) :
  parse_json_string (QuoteJSONString s ++ rest) = Some (s, rest).
Proof.
  unfold QuoteJSONString. cbn [append parse_json_string].
  rewrite Ascii.eqb_refl, append_assoc. apply parse_quote_body.
Qed.

Lemma skip_ws_stop (c : ascii) (r : string) :
  is_json_ws c = false -> skip_ws (String c r) = String c r.
Proof. intros H. simpl. now rewrite H. Qed.

Lemma parse_member (fuel : nat) (e : string * string) (rest : string)
  (acc : JSObject) :
  parse_members (S fuel) (String LF ("  " ++ json_member e ++ rest)) acc
  = match skip_ws rest with
    | EmptyString => None
    | String c s4 =>
        if Ascii.eqb c ","
        then parse_members fuel s4 (obj_define acc (fst e) (snd e))
        else if Ascii.eqb c "}"
             then Some (obj_define acc (fst e) (snd e), s4)
             else None
    end.
Proof.
  unfold json_member. cbn [parse_members].
  change (skip_ws (String LF ("  " ++ (QuoteJSONString (fst e) ++ ": " ++ QuoteJSONString (snd e)) ++ rest)))
    with ((QuoteJSONString (fst e) ++ ": " ++ QuoteJSONString (snd e)) ++ rest).
  rewrite append_assoc, parse_QuoteJSONString.
  change (expect ":" (skip_ws ((": " ++ QuoteJSONString (snd e)) ++ rest)))
    with (Some (String " " (QuoteJSONString (snd e) ++ rest))).
  cbv iota.
  change (skip_ws (String " " (QuoteJSONString (snd e) ++ rest)))
    with (QuoteJSONString (snd e) ++ rest).
  rewrite parse_QuoteJSONString. reflexivity.
Qed.

Lemma parse_members_text (l : JSObject) :
  forall (e : string * string) (acc : JSObject) (fuel : nat) (tail : string),
    List.length l < fuel ->
    parse_members fuel
      (String LF ("  " ++ join member_sep (map json_member (e :: l))
                  ++ String LF (String "}" tail))) acc
    = Some (fold_left (fun o x => obj_define o (fst x) (snd x)) (e :: l) acc,
            tail).
Proof.
  induction l as [|e' l IH]; intros e acc fuel tail F.
  - destruct fuel as [|fuel]; [inversion F|].
    change (join member_sep (map json_member [e])) with (json_member e).
    rewrite parse_member. reflexivity.
  - destruct fuel as [|fuel]; [inversion F|].
    change (map json_member (e :: e' :: l))
      with (json_member e :: json_member e' :: map json_member l).
    rewrite join_cons, !append_assoc, parse_member.
    change (member_sep ++ join member_sep (json_member e' :: map json_member l)
            ++ String LF (String "}" tail))
      with (String ","
              (String LF ("  " ++ join member_sep (map json_member (e' :: l))
                          ++ String LF (String "}" tail)))).
    rewrite (skip_ws_stop "," _ eq_refl).
    cbv iota. rewrite Ascii.eqb_refl.
    rewrite IH by (simpl in F; lia). reflexivity.
Qed.

Lemma members_start (e : string * string) (l : JSObject) :
  exists r, join member_sep (map json_member (e :: l)) = String DQ r.
Proof. destruct l; eexists; reflexivity. Qed.

Lemma members_length (l : list string) :
  List.length l <= S (String.length (join member_sep l)).
Proof.
  induction l as [|x l IH]; [simpl; lia|].
  destruct l as [|y l]; [simpl; lia|].
  rewrite join_cons, !length_append.
  change (String.length member_sep) with 4.
  cbn [List.length] in *. lia.
Qed.

(* ----------------------------------------------------------------- *)
(** *** The serializer *)

Section Serializer.
Variable yaml_dump : JSObject -> string.

(** C7: for every mapping whose values are strings, parsing the JSON
    serialization back yields the mapping: the same keys in the same
    order with the same values. *)
Theorem json_round_trip (obj : JSObject) :
  well_formed obj = true ->
  exists text,
    formatOutput yaml_dump obj "json" = Ok text
    /\ JSON_parse text = Some obj.
Proof.
  intros W. exists (JSON_stringify obj). split; [reflexivity|].
  destruct obj as [|e l]; [reflexivity|].
  unfold JSON_stringify, JSON_parse.
  fold member_sep.
  change (expect "{" (skip_ws ("{" ++ str1 LF ++ "  " ++ join member_sep (map json_member (e :: l)) ++ str1 LF ++ "}")))
    with (Some (String LF ("  " ++ join member_sep (map json_member (e :: l)) ++ String LF (String "}" EmptyString)))).
  cbv iota beta.
  replace (expect "}" (skip_ws (String LF ("  " ++ join member_sep (map json_member (e :: l)) ++ String LF (String "}" EmptyString)))))
    with (@None string)
    by (destruct (members_start e l) as (r & ->); reflexivity).
  rewrite parse_members_text.
  - cbn [snd fst skip_ws is_empty]. f_equal.
    now apply (obj_define_rebuild (e :: l) []).
  - cbn [String.length]. rewrite !length_append.
    pose proof (members_length (map json_member (e :: l))) as M.
    rewrite length_map in M. simpl in *. lia.
Qed.
End Serializer.

Lemma json_round_trip_witness :
  well_formed [("B", "line1" ++ String LF "line2"); ("A", str1 DQ)] = true
  /\ JSON_parse (JSON_stringify
                  [("B", "line1" ++ String LF "line2"); ("A", str1 DQ)])
     = Some [("B", "line1" ++ String LF "line2"); ("A", str1 DQ)].
Proof.
  split; [reflexivity|].
  destruct (json_round_trip MemFS.yaml_dump
              [("B", "line1" ++ String LF "line2"); ("A", str1 DQ)] eq_refl)
    as (text & F & P).
  injection F as <-. exact P.
Defined.

(* ================================================================= *)
(** ** Further properties *)

Open Scope list_scope.
Open Scope string_scope.

(** *** Lines and their composition *)

Lemma split_app (sep : ascii) (a b : string) :
  split sep (a ++ String sep b) = (split sep a ++ split sep b)%list.
Proof.
  unfold split. induction a as [|c a IH]; simpl.
  - destruct (split_pieces sep b). now rewrite Ascii.eqb_refl.
  - destruct (split_pieces sep (a ++ String sep b)) as [h t].
    destruct (split_pieces sep a) as [ha ta].
    destruct (split_pieces sep b) as [hb tb].
    simpl in IH. injection IH as -> ->.
    now destruct (Ascii.eqb c sep).
Qed.

Lemma split_one_line (line : string) :
  mem_char LF line = false -> split LF line = [line].
Proof.
  intros H. unfold split. now rewrite split_pieces_absent.
Qed.

Lemma parseEnv_app (a b : string) :
  parseEnv (a ++ String LF b) = fold_left parse_step (split LF b) (parseEnv a).
Proof.
  unfold parseEnv. now rewrite split_app, fold_left_app.
Qed.

Lemma parseEnv_snoc (content line : string) :
  mem_char LF line = false ->
  parseEnv (content ++ String LF line) = parse_step (parseEnv content) line.
Proof.
  intros H. now rewrite parseEnv_app, split_one_line.
Qed.

(** X1: a later assignment wins: when a line without line feed that parses
    to the entry (key, value), with a key other than __proto__, is
    appended to the text after a line feed, the parsed mapping gives the
    value of that line for the key and gives every other key what the text
    before gave it. *)
Theorem last_assignment_wins (content line key value : string) :
  mem_char LF line = false ->
  parse_line line = Some (key, value) ->
  String.eqb key proto_key = false ->
  forall k,
    own (parseEnv (content ++ String LF line)) k
    = if String.eqb key k then Some value else own (parseEnv content) k.
Proof.
  intros L P N k. rewrite parseEnv_snoc by exact L.
  unfold parse_step. rewrite P, own_obj_set, N. reflexivity.
Qed.

Lemma last_assignment_wins_witness :
  mem_char LF "A=3" = false
  /\ own (parseEnv ("A=1" ++ String LF ("B=2" ++ String LF "A=3"))) "A"
     = Some "3".
Proof.
  split; [reflexivity|].
  exact (last_assignment_wins ("A=1" ++ String LF "B=2") "A=3" "A" "3"
           eq_refl eq_refl eq_refl "A").
Defined.

(** X2: a line that is empty once its comment is cut off and it is
    trimmed, or that has no equals sign before its comment, contributes
    nothing: taking the line out from between two parts of the text leaves
    the parsed mapping as it is. *)
Theorem skipped_line_changes_nothing (before line after : string) :
  mem_char LF line = false ->
  is_empty (strip_comment line)
  || negb (mem_char EQUALS (strip_comment line)) = true ->
  parseEnv (before ++ String LF (line ++ String LF after))
  = parseEnv (before ++ String LF after).
Proof.
  intros L S.
  assert (P : parse_line line = None).
  { apply parse_line_skips. apply orb_true_iff in S as [S|S]; [now left|].
    right. now apply negb_true_iff. }
  rewrite !parseEnv_app, split_app, fold_left_app, (split_one_line line L).
  simpl. unfold parse_step at 2. now rewrite P.
Qed.

Lemma skipped_line_changes_nothing_witness :
  mem_char LF "  # DB_PASSWORD=x" = false
  /\ parseEnv ("A=1" ++ String LF ("  # DB_PASSWORD=x" ++ String LF "B=2"))
     = parseEnv ("A=1" ++ String LF "B=2").
Proof.
  split; [reflexivity|].
  exact (skipped_line_changes_nothing "A=1" "  # DB_PASSWORD=x" "B=2"
           eq_refl eq_refl).
Defined.

(** *** Carriage returns *)

Lemma trimEnd_ws (s : string) (c : ascii) :
  is_ws c = true -> trimEnd (s ++ str1 c) = trimEnd s.
Proof.
  intros H. induction s as [|d s IH]; simpl.
  - now rewrite H.
  - now rewrite IH.
Qed.

Lemma trimStart_ws (s : string) (c : ascii) :
  is_ws c = true ->
  trimStart (s ++ str1 c) = trimStart s ++ str1 c
  \/ (trimStart (s ++ str1 c) = EmptyString /\ trimStart s = EmptyString).
Proof.
  intros H. induction s as [|d s IH]; simpl.
  - right. now rewrite H.
  - destruct (is_ws d); [exact IH|now left].
Qed.

Lemma trim_ws (s : string) (c : ascii) :
  is_ws c = true -> trim (s ++ str1 c) = trim s.
Proof.
  intros H. unfold trim.
  destruct (trimStart_ws s c H) as [E|[E1 E2]].
  - rewrite E. now apply trimEnd_ws.
  - now rewrite E1, E2.
Qed.

Lemma split_head_snoc (sep c : ascii) (s : string) :
  Ascii.eqb c sep = false ->
  split_head sep (s ++ str1 c)
  = if mem_char sep s then split_head sep s else split_head sep s ++ str1 c.
Proof.
  intros N. unfold split_head. induction s as [|d s IH]; simpl.
  - now rewrite N.
  - destruct (split_pieces sep (s ++ str1 c)) as [h t].
    destruct (split_pieces sep s) as [h' t'].
    simpl in IH. destruct (Ascii.eqb d sep); simpl; auto.
    rewrite IH. now destruct (mem_char sep s).
Qed.

(** X3: a carriage return at the end of a line (a file with CRLF line
    ends, split at the line feeds) changes nothing: the line with the
    carriage return assigns the same key and value, or is skipped, as the
    line without it. *)
Theorem carriage_return_tolerated (env : JSObject) (line : string) :
  parse_line (line ++ str1 CR) = parse_line line
  /\ parse_step env (line ++ str1 CR) = parse_step env line.
Proof.
  assert (S : strip_comment (line ++ str1 CR) = strip_comment line).
  { unfold strip_comment. rewrite split_head_snoc by reflexivity.
    destruct (mem_char HASH line); auto. now apply trim_ws. }
  assert (P : parse_line (line ++ str1 CR) = parse_line line)
    by (unfold parse_line; now rewrite S).
  split; auto. unfold parse_step. now rewrite P.
Qed.

Open Scope list_scope.
Open Scope string_scope.

(** *** Assignments *)

Lemma unescape_without_backslash (value : string) :
  mem_char BSL value = false -> unescape value = value.
Proof.
  intros H. unfold unescape.
  assert (R : forall e rep, replace_escape e rep value = value).
  { intros e rep. rewrite <- (append_empty_r value) at 1.
    rewrite replace_escape_app by exact H. simpl. apply append_empty_r. }
  now rewrite !R.
Qed.

Lemma trimEnd_app (x v : string) :
  trimEnd v = v -> is_empty v = false -> trimEnd (x ++ v) = x ++ v.
Proof.
  intros T N. induction x as [|c x IH]; simpl; auto.
  rewrite IH. replace (is_empty (x ++ v)) with false by now destruct x, v.
  now rewrite andb_false_r.
Qed.

Lemma mem_char_app (c : ascii) (a b : string) :
  mem_char c (a ++ b) = mem_char c a || mem_char c b.
Proof.
  induction a as [|d a IH]; simpl; auto. now rewrite IH, orb_assoc.
Qed.

(** The line [key=value] for a plain key: what the turn of the loop has
    before the quotes and the escapes are looked at. *)
Lemma parse_line_split (key v : string) :
  plain_key key = true ->
  mem_char HASH v = false ->
  trimmed v = true ->
  parse_line (key ++ String EQUALS v)
  = Some (key, unescape (strip_quotes v)).
Proof.
  intros K H T. destruct (plain_key_chars key K) as [NH NE].
  apply andb_true_iff in T as [T1 T2].
  apply String.eqb_eq in T1, T2.
  unfold parse_line, strip_comment.
  rewrite split_head_absent
    by (rewrite mem_char_app, NH; simpl; now rewrite H).
  assert (E : trim (key ++ String EQUALS v) = key ++ String EQUALS v).
  { unfold trim. rewrite trimStart_plain by exact K.
    destruct v as [|c v].
    - apply (trimEnd_closed key EQUALS eq_refl).
    - change (key ++ String EQUALS (String c v))
        with (key ++ str1 EQUALS ++ String c v).
      rewrite <- append_assoc. now apply trimEnd_app. }
  rewrite E.
  replace (is_empty (key ++ String EQUALS v)) with false by now destruct key.
  rewrite indexOf_end by exact NE.
  rewrite substring_head, substring_tail, trim_plain by exact K.
  unfold trim. now rewrite T1, T2.
Qed.

(** X4: a line KEY=value whose key has no white space, no # and no = and
    whose value has no #, no backslash, no white space at its ends and is
    not wrapped in a pair of quotes, is read as it stands: the entry is
    exactly (KEY, value). *)
Theorem plain_assignment (key value : string) :
  plain_key key = true ->
  mem_char HASH value = false ->
  mem_char BSL value = false ->
  trimmed value = true ->
  quote_wrapped value = false ->
  parse_line (key ++ String EQUALS value) = Some (key, value).
Proof.
  intros K H B T Q. rewrite parse_line_split by assumption.
  unfold strip_quotes. fold (quote_wrapped value). rewrite Q.
  now rewrite unescape_without_backslash.
Qed.

Lemma plain_assignment_witness :
  plain_key "API_URL" = true
  /\ parse_line "API_URL=https://api.example.com/v1?a=b c"
     = Some ("API_URL", "https://api.example.com/v1?a=b c").
Proof.
  split; [reflexivity|].
  exact (plain_assignment "API_URL" "https://api.example.com/v1?a=b c"
           eq_refl eq_refl eq_refl eq_refl eq_refl).
Defined.

Lemma endsWith_char_snoc (q : ascii) (v : string) :
  endsWith_char q (v ++ str1 q) = true.
Proof.
  induction v as [|c v IH]; simpl.
  - apply Ascii.eqb_refl.
  - replace (is_empty (v ++ str1 q)) with false by now destruct v.
    exact IH.
Qed.

Lemma drop_last_snoc (q : ascii) (v : string) :
  drop_last (v ++ str1 q) = v.
Proof.
  induction v as [|c v IH]; simpl; auto.
  replace (is_empty (v ++ str1 q)) with false by now destruct v.
  now rewrite IH.
Qed.

Lemma strip_quotes_wrapped (q : ascii) (v : string) :
  q = DQ \/ q = SQ -> strip_quotes (String q (v ++ str1 q)) = v.
Proof.
  intros Q. unfold strip_quotes.
  assert (E : endsWith_char q (String q (v ++ str1 q)) = true).
  { simpl. replace (is_empty (v ++ str1 q)) with false by now destruct v.
    apply endsWith_char_snoc. }
  destruct Q as [-> | ->]; rewrite E; simpl; apply drop_last_snoc.
Qed.

(** X5: a value between two double quotes or two single quotes loses
    exactly that one pair: for a key without white space, # and = and a
    value without # and without backslash, the line KEY=qvalueq reads as
    (KEY, value), with the white space and the other quotes inside the
    pair kept. *)
Theorem quoted_assignment (q : ascii) (key value : string) :
  Ascii.eqb q DQ || Ascii.eqb q SQ = true ->
  plain_key key = true ->
  mem_char HASH value = false ->
  mem_char BSL value = false ->
  parse_line (key ++ String EQUALS (String q (value ++ str1 q)))
  = Some (key, value).
Proof.
  intros Q K H B.
  assert (Q' : q = DQ \/ q = SQ).
  { apply orb_true_iff in Q as [Q|Q]; apply Ascii.eqb_eq in Q; auto. }
  assert (W : is_ws q = false) by (destruct Q' as [-> | ->]; reflexivity).
  assert (NH : Ascii.eqb q HASH = false)
    by (destruct Q' as [-> | ->]; reflexivity).
  rewrite parse_line_split; auto.
  - rewrite strip_quotes_wrapped by exact Q'.
    now rewrite unescape_without_backslash.
  - simpl. rewrite NH, mem_char_app, H. simpl. now rewrite NH.
  - unfold trimmed. apply andb_true_iff. split; apply String.eqb_eq.
    + simpl. now rewrite W.
    + change (String q (value ++ str1 q)) with ((String q value) ++ str1 q).
      now apply trimEnd_closed.
Qed.

Lemma quoted_assignment_witness :
  plain_key "APP_NAME" = true
  /\ parse_line ("APP_NAME=" ++ String DQ ("  My 'Awesome' App " ++ str1 DQ))
     = Some ("APP_NAME", "  My 'Awesome' App ").
Proof.
  split; [reflexivity|].
  exact (quoted_assignment DQ "APP_NAME" "  My 'Awesome' App "
           eq_refl eq_refl eq_refl eq_refl).
Defined.

Open Scope list_scope.
Open Scope string_scope.

(** *** Characters that the parser keeps out *)

Lemma trimStart_keeps_out (c : ascii) (s : string) :
  mem_char c s = false -> mem_char c (trimStart s) = false.
Proof.
  induction s as [|d s IH]; simpl; auto. intros H.
  destruct (is_ws d); [|exact H].
  apply IH. now apply orb_false_elim in H.
Qed.

Lemma trimEnd_keeps_out (c : ascii) (s : string) :
  mem_char c s = false -> mem_char c (trimEnd s) = false.
Proof.
  induction s as [|d s IH]; simpl; auto. intros H.
  apply orb_false_elim in H as [H1 H2].
  destruct (is_ws d && is_empty (trimEnd s)); simpl; auto.
  now rewrite H1, IH.
Qed.

Lemma trim_keeps_out (c : ascii) (s : string) :
  mem_char c s = false -> mem_char c (trim s) = false.
Proof.
  intros H. now apply trimEnd_keeps_out, trimStart_keeps_out.
Qed.

Lemma substring_keeps_out (c : ascii) (s : string) (n m : nat) :
  mem_char c s = false -> mem_char c (substring n m s) = false.
Proof.
  revert n m. induction s as [|d s IH]; intros n m H.
  - now destruct n, m.
  - simpl in H. apply orb_false_elim in H as [H1 H2].
    destruct n, m; simpl; auto. now rewrite H1, IH.
Qed.

Lemma drop_last_keeps_out (c : ascii) (s : string) :
  mem_char c s = false -> mem_char c (drop_last s) = false.
Proof.
  induction s as [|d s IH]; simpl; auto. intros H.
  apply orb_false_elim in H as [H1 H2].
  destruct (is_empty s); simpl; auto. now rewrite H1, IH.
Qed.

Lemma strip_quotes_keeps_out (c : ascii) (s : string) :
  mem_char c s = false -> mem_char c (strip_quotes s) = false.
Proof.
  intros H. unfold strip_quotes.
  destruct (_ || _); auto.
  destruct s as [|d s]; auto. simpl in *.
  apply orb_false_elim in H as [_ H]. now apply drop_last_keeps_out.
Qed.

Lemma replace_escape_step (e rep a b : ascii) (s : string) :
  replace_escape e rep (String a (String b s))
  = if Ascii.eqb a BSL && Ascii.eqb b e
    then String rep (replace_escape e rep s)
    else String a (replace_escape e rep (String b s)).
Proof. reflexivity. Qed.

Lemma replace_escape_keeps_out (c e rep : ascii) (s : string) :
  Ascii.eqb rep c = false ->
  mem_char c s = false -> mem_char c (replace_escape e rep s) = false.
Proof.
  intros R. remember (String.length s) as n eqn:L.
  revert s L. induction n as [n IH] using lt_wf_ind. intros s L H.
  destruct s as [|a s]; auto. destruct s as [|b s]; auto.
  rewrite replace_escape_step.
  simpl in H, L.
  apply orb_false_elim in H as [Ha H]. apply orb_false_elim in H as [Hb Hs].
  destruct (Ascii.eqb a BSL && Ascii.eqb b e).
  - cbn [mem_char]. rewrite R. apply (IH (String.length s)); auto. lia.
  - cbn [mem_char]. rewrite Ha. apply (IH (String.length (String b s))).
    + simpl. lia.
    + reflexivity.
    + simpl. now rewrite Hb, Hs.
Qed.

Lemma unescape_keeps_hash_out (s : string) :
  mem_char HASH s = false -> mem_char HASH (unescape s) = false.
Proof.
  intros H. unfold unescape.
  repeat (apply replace_escape_keeps_out; [reflexivity|]). exact H.
Qed.

Lemma indexOf_before (c : ascii) (s : string) (i : nat) :
  indexOf c s = Some i -> mem_char c (substring 0 i s) = false.
Proof.
  revert i. induction s as [|d s IH]; simpl; intros i H; [discriminate|].
  destruct (Ascii.eqb d c) eqn:E.
  - injection H as <-. reflexivity.
  - destruct (indexOf c s) as [j|]; [|discriminate].
    injection H as <-. simpl. now rewrite E, IH.
Qed.

Lemma trimStart_head (s : string) :
  match trimStart s with
  | EmptyString => True
  | String c _ => is_ws c = false
  end.
Proof.
  induction s as [|c s IH]; simpl; auto.
  destruct (is_ws c) eqn:E; auto.
Qed.

Lemma trimEnd_idem (s : string) : trimEnd (trimEnd s) = trimEnd s.
Proof.
  induction s as [|c s IH]; simpl; auto.
  destruct (is_ws c && is_empty (trimEnd s)) eqn:E; auto.
  simpl. now rewrite IH, E.
Qed.

Lemma trim_trimmed (s : string) : trimmed (trim s) = true.
Proof.
  unfold trimmed, trim. rewrite trimEnd_idem, String.eqb_refl, andb_true_r.
  apply String.eqb_eq.
  pose proof (trimStart_head s) as H.
  destruct (trimStart s) as [|c r]; auto.
  simpl. rewrite H. simpl. now rewrite H.
Qed.

Lemma parse_line_clean (line key value : string) :
  mem_char LF line = false ->
  parse_line line = Some (key, value) ->
  clean_entry (key, value) = true.
Proof.
  unfold parse_line. intros L P.
  destruct (is_empty (strip_comment line)); [discriminate|].
  destruct (indexOf EQUALS (strip_comment line)) as [i|] eqn:I;
    [|discriminate].
  injection P as <- <-.
  assert (H : mem_char HASH (strip_comment line) = false)
    by apply trim_keeps_out, split_head_clean.
  assert (N : mem_char LF (strip_comment line) = false).
  { apply trim_keeps_out.
    destruct (mem_char LF (split_head HASH line)) eqn:E; auto.
    exfalso. clear - L E. unfold split_head in E.
    induction line as [|c s IH]; [discriminate|].
    simpl in *. apply orb_false_elim in L as [L1 L2].
    destruct (split_pieces HASH s) as [h t].
    destruct (Ascii.eqb c HASH); [discriminate|].
    simpl in *. rewrite L1 in E. now apply IH. }
  unfold clean_entry. cbn [fst snd].
  rewrite (trim_keeps_out HASH), (trim_keeps_out EQUALS),
    (trim_keeps_out LF), trim_trimmed; simpl.
  - rewrite unescape_keeps_hash_out; auto.
    apply strip_quotes_keeps_out, trim_keeps_out.
    now apply substring_keeps_out.
  - now apply substring_keeps_out.
  - now apply indexOf_before.
  - now apply substring_keeps_out.
Qed.

Lemma split_lines_clean (sep : ascii) (s line : string) :
  In line (split sep s) -> mem_char sep line = false.
Proof.
  unfold split. revert line. induction s as [|c s IH]; intros line; simpl.
  - intros [<-|[]]. reflexivity.
  - destruct (split_pieces sep s) as [h t].
    destruct (Ascii.eqb c sep) eqn:E; simpl.
    + intros [<-|H]; auto.
    + intros [<-|H].
      * simpl. rewrite E. apply IH. now left.
      * apply IH. now right.
Qed.

Lemma obj_define_all (Q : string * string -> bool) (o : JSObject)
  (k v : string) :
  forallb Q o = true -> Q (k, v) = true ->
  forallb Q (obj_define o k v) = true.
Proof.
  intros H Hk. unfold obj_define. destruct (has_own o k).
  - unfold obj_replace. rewrite forallb_forall in *. intros x Hx.
    apply in_map_iff in Hx as (e & <- & He).
    destruct (String.eqb_spec (fst e) k) as [<-|]; auto.
  - destruct (array_index k) as [n|].
    + rewrite forallb_forall in *. intros x Hx.
      apply in_insert_index in Hx as [->|Hx]; auto.
    + rewrite forallb_app, H. simpl. now rewrite Hk.
Qed.

Lemma parse_steps_clean (lines : list string) (env : JSObject) :
  (forall l, In l lines -> mem_char LF l = false) ->
  forallb clean_entry env = true ->
  forallb clean_entry (fold_left parse_step lines env) = true.
Proof.
  revert env. induction lines as [|line lines IH]; intros env L H; auto.
  simpl. apply IH; [intros l Hl; apply L; now right|].
  unfold parse_step. destruct (parse_line line) as [[k v]|] eqn:P; auto.
  unfold obj_set. destruct (_ && _); auto.
  apply obj_define_all; auto.
  apply (parse_line_clean line); auto. apply L. now left.
Qed.

(** X6: whatever the text, the parsed mapping has no key twice, has no own
    key __proto__, and every entry is clean: its key holds no #, no =, no
    line feed and no white space at either end, and its value holds no #. *)
Theorem parsed_mapping_invariants (content : string) :
  NoDup (keys (parseEnv content))
  /\ has_own (parseEnv content) proto_key = false
  /\ forallb clean_entry (parseEnv content) = true.
Proof.
  split; [apply well_formed_NoDup, parseEnv_well_formed|].
  split; [apply parseEnv_no_proto|].
  apply parse_steps_clean; auto.
  intros l. apply split_lines_clean.
Qed.

Open Scope string_scope.
Open Scope list_scope.

(** *** The single filters *)

(** X7: with a non-empty whitelist and an environment that does not shadow
    hasOwnProperty, applyWhitelist returns a mapping that gives a key the
    value the environment gives it when the key is listed and is not
    __proto__, and gives no other key anything. *)
Theorem applyWhitelist_lookup (env : JSObject) (key : string)
  (rest : list string) :
  has_own env "hasOwnProperty" = false ->
  exists r,
    Filters.applyWhitelist env (Some (key :: rest)) = Ok r
    /\ forall k,
         own r k
         = if Spec.mem k (key :: rest) && negb (String.eqb k proto_key)
           then own env k else None.
Proof.
  intros HO. unfold Filters.applyWhitelist. simpl Filters.nonempty.
  cbv iota. simpl negb. cbv iota.
  destruct (whitelist_loop_total env (key :: rest) HO []) as (r & L).
  exists r. split; [exact L|]. intros k.
  rewrite (whitelist_loop_lookup env (key :: rest) HO [] r k eq_refl L).
  destruct (Spec.mem k (key :: rest) && negb (String.eqb k proto_key)); auto.
  simpl. unfold has_own. now destruct (own env k).
Qed.

Lemma applyWhitelist_lookup_witness :
  has_own [("A", "1"); ("B", "2"); ("C", "3")] "hasOwnProperty" = false
  /\ exists r,
       Filters.applyWhitelist [("A", "1"); ("B", "2"); ("C", "3")]
         (Some ["C"; "X"; "A"]) = Ok r
       /\ forall k,
            own r k
            = if Spec.mem k ["C"; "X"; "A"] && negb (String.eqb k proto_key)
              then own [("A", "1"); ("B", "2"); ("C", "3")] k else None.
Proof.
  split; [reflexivity|].
  exact (applyWhitelist_lookup [("A", "1"); ("B", "2"); ("C", "3")]
           "C" ["X"; "A"] eq_refl).
Defined.

(** X8: applyFilters throws exactly when the whitelist is non-empty and
    the environment has an own key hasOwnProperty (a string, so calling it
    fails), and then with the TypeError env.hasOwnProperty is not a
    function; it throws nothing else. *)
Theorem applyFilters_throws_iff (env : JSObject) (options : Filters.Options) :
  (Filters.applyFilters env options = Throw Filters.not_a_function
   <-> Filters.nonempty (Filters.whitelist options) = true
       /\ has_own env "hasOwnProperty" = true)
  /\ (forall m, Filters.applyFilters env options = Throw m ->
                m = Filters.not_a_function).
Proof.
  assert (T : forall m, Filters.applyFilters env options = Throw m ->
                m = Filters.not_a_function
                /\ Filters.nonempty (Filters.whitelist options) = true
                /\ has_own env "hasOwnProperty" = true).
  { intros m H. destruct (has_own env "hasOwnProperty") eqn:HO.
    - unfold Filters.applyFilters, Filters.applyWhitelist in H.
      destruct (Filters.whitelist options) as [[|k l]|]; simpl in H;
        try discriminate.
      rewrite HO in H. injection H as <-. auto.
    - destruct (applyFilters_total env options HO) as (r & R). congruence. }
  split; [split|].
  - intros H. now apply T in H.
  - intros [N HO]. unfold Filters.applyFilters, Filters.applyWhitelist.
    destruct (Filters.whitelist options) as [[|k l]|]; try discriminate.
    simpl. now rewrite HO.
  - intros m H. now apply T in H.
Qed.

(** X9: on a well-formed environment, applyPrefix with an empty prefix
    returns the environment itself, and with a non-empty prefix keeps, in
    their order and with their values, exactly the entries whose key
    starts with the prefix (case-sensitively), but for a key __proto__,
    which is lost. *)
Theorem applyPrefix_keeps_matching (env : JSObject) (p : string) :
  well_formed env = true ->
  Filters.applyPrefix env (Some p)
  = if is_empty p then env
    else filter (fun e => startsWith p (fst e)
                          && negb (String.eqb (fst e) proto_key)) env.
Proof.
  intros W. unfold Filters.applyPrefix. destruct (is_empty p); auto.
  now rewrite (applyPrefix_filter p env []).
Qed.

Lemma applyPrefix_keeps_matching_witness :
  well_formed [("DB_HOST", "h"); ("REACT_APP_A", "1"); ("REACT_APP_B", "2")]
  = true
  /\ Filters.applyPrefix
       [("DB_HOST", "h"); ("REACT_APP_A", "1"); ("REACT_APP_B", "2")]
       (Some "REACT_APP_")
     = [("REACT_APP_A", "1"); ("REACT_APP_B", "2")].
Proof.
  split; [reflexivity|].
  exact (applyPrefix_keeps_matching
           [("DB_HOST", "h"); ("REACT_APP_A", "1"); ("REACT_APP_B", "2")]
           "REACT_APP_" eq_refl).
Defined.

(** X10: applyExclude keeps, in their order and with their values, exactly
    the entries whose key is not listed: a listed key is looked up as
    absent, every other key as before, and a list none of whose keys is in
    the environment changes nothing. *)
Theorem applyExclude_removes (env : JSObject) (exclude : option (list string)) :
  Filters.applyExclude env exclude
  = filter (fun e => negb (Spec.mem (fst e) (Filters.listed exclude))) env
  /\ (forall k,
        own (Filters.applyExclude env exclude) k
        = if Spec.mem k (Filters.listed exclude) then None else own env k)
  /\ ((forall k, In k (Filters.listed exclude) -> has_own env k = false) ->
      Filters.applyExclude env exclude = env).
Proof.
  split; [apply applyExclude_filter|]. split.
  - intros k. rewrite applyExclude_filter.
    rewrite (own_filter_key
               (fun k => negb (Spec.mem k (Filters.listed exclude)))).
    now destruct (Spec.mem k _).
  - intros H. rewrite applyExclude_filter.
    apply forallb_filter_id, forallb_forall. intros e He.
    apply negb_true_iff. destruct (Spec.mem (fst e) _) eqn:M; auto.
    apply mem_In, H in M. now rewrite (own_present env e He) in M.
Qed.

(** X11: the filters only remove: when applyFilters returns on a well-
    formed environment, the result is well-formed and every key it has, it
    has with the value the environment gave it; no key is added, renamed
    or given another value. *)
Theorem applyFilters_only_removes (env : JSObject) (options : Filters.Options)
  (r : JSObject) :
  well_formed env = true ->
  Filters.applyFilters env options = Ok r ->
  well_formed r = true
  /\ forall k v, own r k = Some v -> own env k = Some v.
Proof.
  intros W H. split; [now apply (applyFilters_well_formed env options)|].
  intros k v Hr. unfold Filters.applyFilters in H.
  destruct (Filters.nonempty (Filters.whitelist options)) eqn:N.
  - unfold Filters.applyWhitelist in H. rewrite N in H. simpl in H.
    destruct (Filters.whitelist_loop env _ []) as [s|m] eqn:L; [|discriminate].
    injection H as <-. rewrite exclude_stage, applyExclude_filter in Hr.
    rewrite (own_filter_key
               (fun k => negb (Spec.mem k (Filters.listed (Filters.exclude options)))))
      in Hr.
    destruct (negb _); [|discriminate].
    destruct (whitelist_loop_own _ _ _ _ _ _ L Hr) as [[_ ?]|?]; auto.
    discriminate.
  - injection H as <-. rewrite exclude_stage, applyExclude_filter in Hr.
    rewrite applyPrefix_entries in Hr by exact W.
    rewrite filter_filter in Hr.
    set (P := fun k : string =>
                (if Filters.truthy (Filters.prefix options)
                 then startsWith match Filters.prefix options with
                                 | Some s => s
                                 | None => EmptyString
                                 end k
                      && negb (String.eqb k proto_key)
                 else true)
                && negb (Spec.mem k (Filters.listed (Filters.exclude options)))).
    change (own (filter (fun e => P (fst e)) env) k = Some v) in Hr.
    rewrite own_filter_key in Hr. now destruct (P k).
Qed.

Lemma applyFilters_only_removes_witness :
  well_formed [("A", "1"); ("B", "2")] = true
  /\ well_formed [("B", "2")] = true.
Proof.
  split; [reflexivity|].
  exact (proj1 (applyFilters_only_removes [("A", "1"); ("B", "2")]
           {| Filters.whitelist := Some ["B"]; Filters.exclude := None;
              Filters.prefix := Some "A" |} [("B", "2")] eq_refl eq_refl)).
Defined.

(** X12: on a whitelist and an exclude list that are arrays or absent,
    validateFilters accepts exactly the options in which neither list is
    an empty array and the prefix is a string, null or undefined; a prefix
    of another type is refused with Prefix must be a string.  On a prefix
    that is a string or absent the function is its typed form, and the
    options that convertEnv builds from lists and such a prefix (an empty
    list left out) are always valid, with no error. *)
Theorem validation_of_lists (whitelist exclude : option (list string))
  (wl ex : list string) (pf : option string) :
  (forall prefix,
     Filters.valid
       (fst (Filters.validateFilters_any whitelist exclude prefix))
     = negb (Filters.is_empty_array whitelist
             || Filters.is_empty_array exclude
             || match prefix with
                | Filters.PrefixOther _ => true
                | _ => false
                end))
  /\ (forall truth,
        In "Prefix must be a string"%string
          (Filters.errors
             (fst (Filters.validateFilters_any whitelist exclude
                     (Filters.PrefixOther truth)))))
  /\ Filters.validateFilters
       {| Filters.whitelist := whitelist; Filters.exclude := exclude;
          Filters.prefix := pf |}
     = Filters.validateFilters_any whitelist exclude (Filters.prefix_value pf)
  /\ fst (Filters.validateFilters_any (some_if_nonempty wl)
            (some_if_nonempty ex)
            (Filters.prefix_value (if Filters.truthy pf then pf else None)))
     = {| Filters.valid := true; Filters.errors := [] |}.
Proof.
  split; [|split; [|split]].
  - intros prefix. unfold Filters.validateFilters_any. simpl.
    destruct (Filters.is_empty_array whitelist),
      (Filters.is_empty_array exclude), prefix; reflexivity.
  - intros truth. unfold Filters.validateFilters_any. simpl.
    apply in_or_app. right. apply in_or_app. right. now left.
  - unfold Filters.validateFilters, Filters.validateFilters_any. simpl.
    destruct pf as [s|]; simpl;
      destruct (Filters.is_empty_array whitelist),
        (Filters.is_empty_array exclude), (Filters.is_some whitelist);
      try destruct (is_empty s); reflexivity.
  - destruct pf as [p|]; [destruct (is_empty p) eqn:E|];
      destruct wl, ex; simpl; rewrite ?E; reflexivity.
Qed.

Open Scope string_scope.
Open Scope list_scope.

(** *** Redaction, again *)

Lemma sensitive_split (terms : list string) (e : string * string) :
  existsb (fun t => Spec.occurs_ci t (fst e)) terms
  || existsb (fun t => Spec.occurs_ci t (snd e)) terms
  = Spec.sensitive terms e.
Proof.
  unfold Spec.sensitive. induction terms as [|x l IH]; simpl; auto.
  rewrite <- IH.
  destruct (Spec.occurs_ci x (fst e)), (Spec.occurs_ci x (snd e));
    simpl; auto; now rewrite ?orb_true_r.
Qed.

Lemma maskSecrets_redacts (ext : string -> result (string -> bool))
  (obj : JSObject) (t : string) (terms : list string) :
  well_formed obj = true ->
  forallb plain_term (t :: terms) = true ->
  Utils.maskSecrets ext obj (t :: terms)
  = Ok (map (Spec.redact_entry (t :: terms)) obj).
Proof.
  intros W P0.
  assert (P : Forall (fun t => plain_term t = true) (t :: terms)).
  { apply Forall_forall. now apply forallb_forall. }
  unfold Utils.maskSecrets.
  destruct (RegExp_plain ext t terms P) as (test & -> & T). f_equal.
  pose proof (mask_loop test obj [] (well_formed_NoDup obj W)) as M.
  simpl in M. rewrite M. apply map_ext. intros e.
  unfold Spec.redact_entry. now rewrite !T, sensitive_split.
Qed.

Lemma redact_entry_idem (terms : list string) (e : string * string) :
  Spec.redact_entry terms (Spec.redact_entry terms e)
  = Spec.redact_entry terms e.
Proof.
  unfold Spec.redact_entry. destruct (Spec.sensitive terms e) eqn:S.
  - now destruct (Spec.sensitive terms (fst e, Utils.REDACTED)).
  - now rewrite S.
Qed.

Lemma keys_redacted (terms : list string) (obj : JSObject) :
  keys (map (Spec.redact_entry terms) obj) = keys obj.
Proof.
  unfold keys. rewrite map_map. apply map_ext. intros e.
  unfold Spec.redact_entry. now destruct (Spec.sensitive terms e).
Qed.

(** X13: on a well-formed mapping and for terms without regular-expression
    metacharacters, masking succeeds, keeps the mapping well-formed, and
    masking the masked mapping again with the same terms changes nothing. *)
Theorem maskSecrets_idempotent (ext : string -> result (string -> bool))
  (obj : JSObject) (terms : list string) :
  well_formed obj = true ->
  forallb plain_term terms = true ->
  exists masked,
    Utils.maskSecrets ext obj terms = Ok masked
    /\ Utils.maskSecrets ext masked terms = Ok masked
    /\ well_formed masked = true.
Proof.
  intros W P. destruct terms as [|t terms].
  - exists obj. repeat split; auto.
  - exists (map (Spec.redact_entry (t :: terms)) obj).
    assert (W' : well_formed (map (Spec.redact_entry (t :: terms)) obj) = true).
    { now rewrite (well_formed_keys _ obj (keys_redacted _ obj)). }
    split; [now apply maskSecrets_redacts|]. split; [|exact W'].
    rewrite maskSecrets_redacts by assumption.
    rewrite map_map. apply f_equal, map_ext. intros e.
    apply redact_entry_idem.
Qed.

Lemma maskSecrets_idempotent_witness :
  well_formed [("TOKEN", "abc"); ("NOTE", "redacted text")] = true
  /\ exists masked,
       Utils.maskSecrets MemFS.regexp_ext
         [("TOKEN", "abc"); ("NOTE", "redacted text")] ["token"; "ABC"]
       = Ok masked
       /\ Utils.maskSecrets MemFS.regexp_ext masked ["token"; "ABC"]
          = Ok masked
       /\ well_formed masked = true.
Proof.
  split; [reflexivity|].
  exact (maskSecrets_idempotent MemFS.regexp_ext
           [("TOKEN", "abc"); ("NOTE", "redacted text")] ["token"; "ABC"]
           eq_refl eq_refl).
Defined.

(** X14: an empty term among redaction terms without regular-expression
    metacharacters (what --redact= with no value gives) matches every
    string: every value of a well-formed mapping is replaced by
    ***REDACTED***, the keys and their order kept. *)
Theorem empty_term_redacts_everything
  (ext : string -> result (string -> bool)) (obj : JSObject)
  (terms : list string) :
  well_formed obj = true ->
  forallb plain_term terms = true ->
  Spec.mem EmptyString terms = true ->
  Utils.maskSecrets ext obj terms
  = Ok (map (fun e => (fst e, Utils.REDACTED)) obj).
Proof.
  intros W P M. destruct terms as [|t terms]; [discriminate|].
  rewrite maskSecrets_redacts by assumption.
  apply f_equal, map_ext. intros e. unfold Spec.redact_entry.
  replace (Spec.sensitive (t :: terms) e) with true; auto.
  symmetry. unfold Spec.sensitive. apply existsb_exists.
  exists EmptyString. split; [now apply mem_In|].
  now destruct (fst e).
Qed.

Lemma empty_term_redacts_everything_witness :
  well_formed [("A", "1"); ("B", "2")] = true
  /\ Utils.maskSecrets MemFS.regexp_ext [("A", "1"); ("B", "2")]
       (Utils.redact (Utils.parseArgs ["--redact="]))
     = Ok [("A", Utils.REDACTED); ("B", Utils.REDACTED)].
Proof.
  split; [reflexivity|].
  exact (empty_term_redacts_everything MemFS.regexp_ext
           [("A", "1"); ("B", "2")]
           (Utils.redact (Utils.parseArgs ["--redact="]))
           eq_refl eq_refl eq_refl).
Defined.

(** *** The example depends on the set of keys only *)

Lemma ascending_unique (l1 l2 : list string) :
  ascending l1 -> ascending l2 -> Permutation l1 l2 -> l1 = l2.
Proof.
  unfold ascending. revert l2.
  induction l1 as [|a l1 IH]; intros l2 S1 S2 P.
  - apply Permutation_nil in P. now subst.
  - destruct l2 as [|b l2].
    + apply Permutation_sym, Permutation_nil in P. discriminate.
    + inversion S1 as [|? ? S1' F1]; subst.
      inversion S2 as [|? ? S2' F2]; subst.
      assert (E : a = b).
      { assert (Ia : In a (b :: l2))
          by (apply (Permutation_in _ P); now left).
        assert (Ib : In b (a :: l1))
          by (apply (Permutation_in _ (Permutation_sym P)); now left).
        destruct Ia as [->|Ia]; auto. destruct Ib as [->|Ib]; auto.
        rewrite Forall_forall in F1, F2.
        apply String.leb_antisym; auto. }
      subst b. f_equal. apply IH; auto.
      now apply Permutation_cons_inv in P.
Qed.

(** X15: the example document depends only on the set of keys: two
    mappings whose keys are a permutation of each other, whatever their
    values and their order, give the same example text. *)
Theorem example_ignores_order_and_values (a b : JSObject) :
  Permutation (keys a) (keys b) -> generateExample a = generateExample b.
Proof.
  intros P. unfold generateExample.
  replace (sort (keys b)) with (sort (keys a)); auto.
  apply ascending_unique; try apply sort_ascending.
  rewrite !sort_perm. exact P.
Qed.

Lemma example_ignores_order_and_values_witness :
  generateExample [("B", "secret"); ("A", "x")]
  = generateExample [("A", "1"); ("B", "2")].
Proof.
  apply (example_ignores_order_and_values
           [("B", "secret"); ("A", "x")] [("A", "1"); ("B", "2")]).
  apply perm_swap.
Defined.

Open Scope list_scope.
Open Scope string_scope.

(** *** The serialization parses back *)

Lemma JSON_parse_stringify (obj : JSObject) :
  well_formed obj = true -> JSON_parse (JSON_stringify obj) = Some obj.
Proof.
  intros W. destruct obj as [|e l]; [reflexivity|].
  unfold JSON_stringify, JSON_parse.
  change (expect "{" (skip_ws ("{" ++ str1 LF ++ "  " ++ join member_sep (map json_member (e :: l)) ++ str1 LF ++ "}")))
    with (Some (String LF ("  " ++ join member_sep (map json_member (e :: l)) ++ String LF (String "}" EmptyString)))).
  cbv iota beta.
  replace (expect "}" (skip_ws (String LF ("  " ++ join member_sep (map json_member (e :: l)) ++ String LF (String "}" EmptyString)))))
    with (@None string)
    by (destruct (members_start e l) as (r & ->); reflexivity).
  rewrite parse_members_text.
  - cbn [snd fst skip_ws is_empty]. f_equal.
    now apply (obj_define_rebuild (e :: l) []).
  - cbn [String.length]. rewrite !length_append.
    pose proof (members_length (map json_member (e :: l))) as M.
    rewrite length_map in M. simpl in *. lia.
Qed.

(* ----------------------------------------------------------------- *)
(** *** The orchestrator: files *)

Section Files.
Variable World : Type.
Variable existsSync : World -> string -> bool.
Variable readFileSync : World -> string -> result string.
Variable mkdirSync : World -> string -> World * option string.
Variable writeFileSync : World -> string -> string -> World * option string.
Variable dirname : string -> string.
Variable yaml_dump : JSObject -> string.
Variable regexp_ext : string -> result (string -> bool).

Let convert :=
  convertEnv World existsSync readFileSync mkdirSync writeFileSync dirname
    yaml_dump regexp_ext.
Let writeFile :=
  Utils.writeFile World existsSync mkdirSync writeFileSync dirname.
Let load := loadEnv World existsSync readFileSync.

(** X16: without the example flag and without a non-empty output path,
    convertEnv leaves the file system as it found it, whatever it returns. *)
Theorem convertEnv_writes_on_request_only (w : World) (options : Options) :
  shouldGenerateExample options = false ->
  Filters.truthy (output options) = false ->
  world World (convert w options) = w.
Proof.
  intros G O. unfold convert, convertEnv.
  destruct (built_filters_valid (whitelist options) (exclude options)
              (prefix options)) as (ws & ->).
  cbn [Filters.valid negb]. rewrite G. unfold Utils.fileExists.
  destruct (existsSync w (file options));
    [|destruct (negb (file options =? ".env")%string && existsSync w ".env")];
    destruct (output options) as [out|]; simpl in O;
    try (destruct (is_empty out); [|discriminate]);
    split_match; reflexivity.
Qed.

(** X17: when the requested file does not exist, is not named .env, and
    .env exists, convertEnv returns the same descriptor and leaves the
    same file system as the call with the file .env, and prints one
    warning more, last: File <name> not found, using .env instead. *)
Theorem convertEnv_falls_back (w : World) (options : Options) :
  existsSync w (file options) = false ->
  String.eqb (file options) ".env" = false ->
  existsSync w ".env" = true ->
  returned World (convert w options)
  = returned World (convert w (with_file options ".env"))
  /\ world World (convert w options)
     = world World (convert w (with_file options ".env"))
  /\ warnings World (convert w options)
     = (warnings World (convert w (with_file options ".env"))
        ++ [("File " ++ file options
             ++ " not found, using .env instead")%string])%list.
Proof.
  intros E N D. unfold convert, convertEnv, with_file.
  cbn [file format output whitelist exclude prefix redact
       shouldGenerateExample].
  destruct (built_filters_valid (whitelist options) (exclude options)
              (prefix options)) as (ws & ->).
  cbn [Filters.valid negb]. unfold Utils.fileExists.
  rewrite E, N, D. cbn [negb andb].
  repeat split; split_match; reflexivity.
Qed.

(** X18: when the requested file does not exist and either it is .env
    itself or .env does not exist either, convertEnv returns the failure
    Environment file not found: <requested name> and touches no file. *)
Theorem convertEnv_file_not_found (w : World) (options : Options) :
  existsSync w (file options) = false ->
  String.eqb (file options) ".env" || negb (existsSync w ".env") = true ->
  returned World (convert w options)
  = failure ("Environment file not found: " ++ file options)
  /\ world World (convert w options) = w.
Proof.
  intros E N. unfold convert, convertEnv.
  destruct (built_filters_valid (whitelist options) (exclude options)
              (prefix options)) as (ws & ->).
  cbn [Filters.valid negb]. unfold Utils.fileExists. rewrite E.
  replace (negb (file options =? ".env")%string && existsSync w ".env")
    with false.
  - split; reflexivity.
  - destruct (file options =? ".env")%string; auto.
    simpl in *. now rewrite negb_true_iff in N.
Qed.

Lemma output_written (w : World) (options : Options) (out : string) :
  shouldGenerateExample options = false ->
  output options = Some out ->
  is_empty out = false ->
  success (returned World (convert w options)) = true ->
  exists text,
    data (returned World (convert w options)) = Some text
    /\ message (returned World (convert w options))
       = Some ("Output written to " ++ out)
    /\ writeFile w out text = (world World (convert w options), Ok tt).
Proof.
  intros G O N. unfold convert, convertEnv.
  destruct (built_filters_valid (whitelist options) (exclude options)
              (prefix options)) as (ws & ->).
  cbn [Filters.valid negb]. rewrite G, O, N. unfold Utils.fileExists.
  fold writeFile.
  destruct (existsSync w (file options));
    [|destruct (negb (file options =? ".env")%string && existsSync w ".env")];
    split_match; cbn; try discriminate; intros _;
    match goal with
    | H : writeFile w out ?t = (?w', Ok ?u) |- _ =>
        exists t; destruct u; repeat split; exact H
    end.
Qed.

(** X19: with a non-empty output path and no example flag, a successful
    call wrote one text to that path, returns that text as data with the
    message Output written to <path>, and the text is the one the same
    call without output path returns as data. *)
Theorem convertEnv_output_file (w : World) (options : Options) (out : string) :
  shouldGenerateExample options = false ->
  output options = Some out ->
  is_empty out = false ->
  success (returned World (convert w options)) = true ->
  exists text,
    returned World (convert w (with_output options None))
    = {| success := true; data := Some text; error := None;
         message := None |}
    /\ returned World (convert w options)
       = {| success := true; data := Some text; error := None;
            message := Some ("Output written to " ++ out) |}
    /\ writeFile w out text = (world World (convert w options), Ok tt).
Proof.
  intros G O N. unfold convert, convertEnv, with_output.
  cbn [file format output whitelist exclude prefix redact
       shouldGenerateExample].
  destruct (built_filters_valid (whitelist options) (exclude options)
              (prefix options)) as (ws & ->).
  cbn [Filters.valid negb]. rewrite G, O, N. unfold Utils.fileExists.
  fold writeFile.
  destruct (existsSync w (file options));
    [|destruct (negb (file options =? ".env")%string && existsSync w ".env")];
    split_match; cbn; try discriminate; intros _;
    match goal with
    | H : writeFile w out ?t = (?w', Ok ?u) |- _ =>
        exists t; destruct u; repeat split; exact H
    end.
Qed.

(** X20: loadEnv throws Environment file not found: <path> when the file
    does not exist; when it returns a mapping, convertEnv with the default
    options on the same file returns as data the JSON text of that
    mapping, and parsing that text gives the mapping back. *)
Theorem loadEnv_agrees_with_convert (w : World) (filePath : string) :
  (existsSync w filePath = false ->
   load w filePath = Throw ("Environment file not found: " ++ filePath))
  /\ forall env,
       load w filePath = Ok env ->
       returned World (convert w (with_file default_options filePath))
       = {| success := true; data := Some (JSON_stringify env);
            error := None; message := None |}
       /\ JSON_parse (JSON_stringify env) = Some env.
Proof.
  split.
  - intros E. unfold load, loadEnv, Utils.fileExists. now rewrite E.
  - intros env L. unfold load, loadEnv, Utils.fileExists in L.
    destruct (existsSync w filePath) eqn:E; [|discriminate]. simpl in L.
    destruct (Utils.readFile World readFileSync w filePath) as [c|m] eqn:R;
      [|discriminate].
    injection L as <-. split.
    + unfold convert, convertEnv, with_file, default_options.
      cbn [file format output whitelist exclude prefix redact
           shouldGenerateExample].
      unfold Utils.fileExists. simpl. now rewrite E, R.
    + apply JSON_parse_stringify, parseEnv_well_formed.
Qed.
(** X21: when the requested file exists but reading it throws (a
    directory, a file without permission), convertEnv does not throw: it
    returns the failure Failed to read file <name>: <message of the
    error>, leaves the file system untouched and prints only the warnings
    of the validation. *)
Theorem convertEnv_read_failure (w : World) (options : Options)
  (m : string) :
  existsSync w (file options) = true ->
  readFileSync w (file options) = Throw m ->
  convert w options
  = {| returned := failure ("Failed to read file " ++ file options
                            ++ ": " ++ m);
       world := w;
       warnings := snd (Filters.validateFilters
                          {| Filters.whitelist :=
                               some_if_nonempty (whitelist options);
                             Filters.exclude :=
                               some_if_nonempty (exclude options);
                             Filters.prefix :=
                               if Filters.truthy (prefix options)
                               then prefix options else None |}) |}.
Proof.
  intros E R. unfold convert, convertEnv.
  destruct (built_filters_valid (whitelist options) (exclude options)
              (prefix options)) as (ws & ->).
  cbn [Filters.valid negb snd]. unfold Utils.fileExists, Utils.readFile.
  now rewrite E, R.
Qed.
End Files.

Lemma convertEnv_writes_on_request_only_witness :
  world MemFS.World
    (MemFS.convertEnv [(".env", "A=1")]
       {| file := ".env"; format := "yaml"; output := Some "";
          whitelist := []; exclude := []; prefix := None; redact := ["a"];
          shouldGenerateExample := false |})
  = [(".env", "A=1")].
Proof.
  exact (convertEnv_writes_on_request_only MemFS.World MemFS.existsSync
           MemFS.readFileSync MemFS.mkdirSync MemFS.writeFileSync
           MemFS.dirname MemFS.yaml_dump MemFS.regexp_ext
           [(".env", "A=1")]
           {| file := ".env"; format := "yaml"; output := Some "";
              whitelist := []; exclude := []; prefix := None;
              redact := ["a"]; shouldGenerateExample := false |}
           eq_refl eq_refl).
Defined.

Lemma convertEnv_falls_back_witness :
  returned MemFS.World
    (MemFS.convertEnv [(".env", "A=1")]
       {| file := "prod.env"; format := "json"; output := None;
          whitelist := []; exclude := []; prefix := None; redact := [];
          shouldGenerateExample := false |})
  = {| success := true; data := Some (JSON_stringify [("A", "1")]);
       error := None; message := None |}
  /\ warnings MemFS.World
       (MemFS.convertEnv [(".env", "A=1")]
          {| file := "prod.env"; format := "json"; output := None;
             whitelist := []; exclude := []; prefix := None; redact := [];
             shouldGenerateExample := false |})
     = ["File prod.env not found, using .env instead"].
Proof.
  pose proof (convertEnv_falls_back MemFS.World MemFS.existsSync
                MemFS.readFileSync MemFS.mkdirSync MemFS.writeFileSync
                MemFS.dirname MemFS.yaml_dump MemFS.regexp_ext
                [(".env", "A=1")]
                {| file := "prod.env"; format := "json"; output := None;
                   whitelist := []; exclude := []; prefix := None;
                   redact := []; shouldGenerateExample := false |}
                eq_refl eq_refl eq_refl) as (R & _ & W).
  split; [exact R | exact W].
Defined.

Lemma convertEnv_file_not_found_witness :
  returned MemFS.World
    (MemFS.convertEnv [("prod.env", "A=1")]
       {| file := ".env"; format := "json"; output := None;
          whitelist := []; exclude := []; prefix := None; redact := [];
          shouldGenerateExample := false |})
  = failure "Environment file not found: .env".
Proof.
  exact (proj1
    (convertEnv_file_not_found MemFS.World MemFS.existsSync
       MemFS.readFileSync MemFS.mkdirSync MemFS.writeFileSync
       MemFS.dirname MemFS.yaml_dump MemFS.regexp_ext
       [("prod.env", "A=1")]
       {| file := ".env"; format := "json"; output := None;
          whitelist := []; exclude := []; prefix := None; redact := [];
          shouldGenerateExample := false |}
       eq_refl eq_refl)).
Defined.

Lemma convertEnv_output_file_witness :
  success
    (returned MemFS.World
       (MemFS.convertEnv [(".env", "A=1")]
          {| file := ".env"; format := "js"; output := Some "out.js";
             whitelist := []; exclude := []; prefix := None; redact := [];
             shouldGenerateExample := false |})) = true
  /\ exists text,
       returned MemFS.World
         (MemFS.convertEnv [(".env", "A=1")]
            {| file := ".env"; format := "js"; output := None;
               whitelist := []; exclude := []; prefix := None; redact := [];
               shouldGenerateExample := false |})
       = {| success := true; data := Some text; error := None;
            message := None |}
       /\ returned MemFS.World
            (MemFS.convertEnv [(".env", "A=1")]
               {| file := ".env"; format := "js"; output := Some "out.js";
                  whitelist := []; exclude := []; prefix := None;
                  redact := []; shouldGenerateExample := false |})
          = {| success := true; data := Some text; error := None;
               message := Some "Output written to out.js" |}
       /\ Utils.writeFile MemFS.World MemFS.existsSync MemFS.mkdirSync
            MemFS.writeFileSync MemFS.dirname [(".env", "A=1")] "out.js" text
          = (world MemFS.World
               (MemFS.convertEnv [(".env", "A=1")]
                  {| file := ".env"; format := "js"; output := Some "out.js";
                     whitelist := []; exclude := []; prefix := None;
                     redact := []; shouldGenerateExample := false |}),
             Ok tt).
Proof.
  split; [reflexivity|].
  exact (convertEnv_output_file MemFS.World MemFS.existsSync
           MemFS.readFileSync MemFS.mkdirSync MemFS.writeFileSync
           MemFS.dirname MemFS.yaml_dump MemFS.regexp_ext
           [(".env", "A=1")]
           {| file := ".env"; format := "js"; output := Some "out.js";
              whitelist := []; exclude := []; prefix := None;
              redact := []; shouldGenerateExample := false |}
           "out.js" eq_refl eq_refl eq_refl eq_refl).
Defined.

Lemma loadEnv_agrees_with_convert_witness :
  MemFS.loadEnv [("a.env", "A=1")] "a.env" = Ok [("A", "1")]
  /\ returned MemFS.World
       (MemFS.convertEnv [("a.env", "A=1")]
          (with_file default_options "a.env"))
     = {| success := true; data := Some (JSON_stringify [("A", "1")]);
          error := None; message := None |}.
Proof.
  split; [reflexivity|].
  exact (proj1 (proj2
    (loadEnv_agrees_with_convert MemFS.World MemFS.existsSync
       MemFS.readFileSync MemFS.mkdirSync MemFS.writeFileSync
       MemFS.dirname MemFS.yaml_dump MemFS.regexp_ext
       [("a.env", "A=1")] "a.env") [("A", "1")] eq_refl)).
Defined.

Lemma convertEnv_read_failure_witness :
  returned unit
    (convertEnv unit (fun _ _ => true)
       (fun _ _ => Throw "EISDIR: illegal operation on a directory, read")
       (fun w _ => (w, None)) (fun w _ _ => (w, None)) (fun p => p)
       MemFS.yaml_dump MemFS.regexp_ext tt default_options)
  = failure ("Failed to read file .env: "
             ++ "EISDIR: illegal operation on a directory, read").
Proof.
  exact (f_equal (returned unit)
    (convertEnv_read_failure unit (fun _ _ => true)
       (fun _ _ => Throw "EISDIR: illegal operation on a directory, read")
       (fun w _ => (w, None)) (fun w _ _ => (w, None)) (fun p => p)
       MemFS.yaml_dump MemFS.regexp_ext tt default_options
       "EISDIR: illegal operation on a directory, read" eq_refl eq_refl)).
Defined.

Open Scope list_scope.
Open Scope string_scope.

(** *** The arguments of the command *)

Ltac arg_cases arg :=
  unfold Utils.arg_step;
  destruct (String.eqb arg "--help" || String.eqb arg "-h") eqn:?;
  [|destruct (startsWith "--format=" arg) eqn:?;
    [|destruct (startsWith "--output=" arg) eqn:?;
      [|destruct (startsWith "--whitelist=" arg) eqn:?;
        [|destruct (startsWith "--exclude=" arg) eqn:?;
          [|destruct (startsWith "--prefix=" arg) eqn:?;
            [|destruct (startsWith "--redact=" arg) eqn:?;
              [|destruct (String.eqb arg "--generate-example") eqn:?;
                [|destruct (startsWith "--" arg) eqn:?]]]]]]]].

Lemma startsWith_trans (p q s : string) :
  startsWith p q = true -> startsWith q s = true -> startsWith p s = true.
Proof.
  unfold startsWith. revert q s.
  induction p as [|a p IH]; intros q s; [now destruct s|].
  destruct q as [|b q]; [discriminate|]. destruct s as [|c s]; [discriminate|].
  simpl. destruct (ascii_dec a b) as [->|]; [|discriminate].
  destruct (ascii_dec b c) as [->|]; [|discriminate].
  destruct (ascii_dec c c); [|congruence]. apply IH.
Qed.

Lemma not_example_arg (arg : string) :
  (String.eqb arg "--help" || String.eqb arg "-h"
   || startsWith "--format=" arg || startsWith "--output=" arg
   || startsWith "--whitelist=" arg || startsWith "--exclude=" arg
   || startsWith "--prefix=" arg || startsWith "--redact=" arg) = true ->
  String.eqb arg "--generate-example" = false.
Proof.
  intros H.
  destruct (String.eqb_spec arg "--generate-example") as [E|];
    [|reflexivity].
  subst arg. vm_compute in H. discriminate H.
Qed.

Lemma arg_step_help (p : Utils.Parsed) (arg : string) :
  Utils.help (Utils.arg_step p arg) = Utils.help p || is_help_arg arg.
Proof.
  unfold is_help_arg. arg_cases arg; simpl;
    try (destruct (is_empty (Utils.file p)); simpl);
    now rewrite ?orb_false_r, ?orb_true_r.
Qed.

Lemma arg_step_example (p : Utils.Parsed) (arg : string) :
  Utils.generateExample (Utils.arg_step p arg)
  = Utils.generateExample p || is_example_arg arg.
Proof.
  unfold is_example_arg. pose proof (not_example_arg arg) as N.
  arg_cases arg; simpl;
    try (destruct (is_empty (Utils.file p)); simpl);
    try (rewrite N;
         [now rewrite orb_false_r
         |repeat match goal with
                 | H : _ = true |- _ => rewrite H
                 end;
          now rewrite ?orb_true_r]);
    now rewrite ?orb_false_r, ?orb_true_r.
Qed.

Lemma arg_step_file (p : Utils.Parsed) (arg : string) :
  Utils.file (Utils.arg_step p arg)
  = if positional arg then arg else Utils.file p.
Proof.
  unfold positional, is_help_arg.
  assert (T : forall q, startsWith q arg = true ->
                        startsWith "--" q = true ->
                        startsWith "--" arg = true).
  { intros q H1 H2. now apply (startsWith_trans "--" q arg). }
  arg_cases arg; simpl;
    try (destruct (is_empty (Utils.file p)); simpl);
    try reflexivity;
    try (match goal with
         | H : startsWith ?q arg = true |- _ =>
             rewrite (T q H eq_refl); reflexivity
         end).
  all: match goal with
       | H : String.eqb ?a _ = true |- _ =>
           apply String.eqb_eq in H; subst a; reflexivity
       end.
Qed.

Lemma help_flag (args : list string) (p : Utils.Parsed) :
  Utils.help (fold_left Utils.arg_step args p)
  = Utils.help p || existsb is_help_arg args.
Proof.
  revert p. induction args as [|arg args IH]; intros p; simpl.
  - now rewrite orb_false_r.
  - now rewrite IH, arg_step_help, orb_assoc.
Qed.

Lemma example_flag (args : list string) (p : Utils.Parsed) :
  Utils.generateExample (fold_left Utils.arg_step args p)
  = Utils.generateExample p || existsb is_example_arg args.
Proof.
  revert p. induction args as [|arg args IH]; intros p; simpl.
  - now rewrite orb_false_r.
  - now rewrite IH, arg_step_example, orb_assoc.
Qed.

(** X22: parseArgs sets help exactly when some argument is --help or -h,
    and generateExample exactly when some argument is --generate-example,
    wherever they stand; no later argument resets them. *)
Theorem parseArgs_flags (args : list string) :
  Utils.help (Utils.parseArgs args) = existsb is_help_arg args
  /\ Utils.generateExample (Utils.parseArgs args)
     = existsb is_example_arg args.
Proof.
  unfold Utils.parseArgs. now rewrite help_flag, example_flag.
Qed.

Lemma last_cons (arg d : string) (l : list string) :
  last (arg :: l) d = last l arg.
Proof.
  revert arg d. induction l as [|x l IH]; intros arg d; auto.
  change (last (arg :: x :: l) d) with (last (x :: l) d).
  now rewrite !IH.
Qed.

Lemma file_argument (args : list string) (p : Utils.Parsed) :
  Utils.file (fold_left Utils.arg_step args p)
  = last (filter positional args) (Utils.file p).
Proof.
  revert p. induction args as [|arg args IH]; intros p; [reflexivity|].
  cbn [fold_left filter]. rewrite IH, arg_step_file.
  destruct (positional arg); auto. now rewrite last_cons.
Qed.

(** X23: the input file that parseArgs returns is the last argument that
    does not start with -- and is not -h, or .env when there is none; so
    an unknown single-dash option such as -x is taken for the file name. *)
Theorem parseArgs_file (args : list string) :
  Utils.file (Utils.parseArgs args) = last (filter positional args) ".env".
Proof. apply file_argument. Qed.

Open Scope list_scope.
Open Scope string_scope.

(** *** The values of the options *)

Lemma option_value_cut (name v : string) :
  mem_char EQUALS name = false ->
  Utils.option_value (name ++ String EQUALS v) = split_head EQUALS v.
Proof.
  intros H. unfold Utils.option_value, split_head.
  induction name as [|c name IH]; simpl in *.
  - destruct (split_pieces EQUALS v). reflexivity.
  - apply orb_false_elim in H as [Hc Hn]. specialize (IH Hn).
    destruct (split_pieces EQUALS (name ++ String EQUALS v)) as [h t].
    now rewrite Hc.
Qed.

Lemma scalar_steps (p : Utils.Parsed) (v : string) :
  Utils.format (Utils.arg_step p ("--format=" ++ v))
  = Utils.option_value ("--format=" ++ v)
  /\ Utils.output (Utils.arg_step p ("--output=" ++ v))
     = Some (Utils.option_value ("--output=" ++ v))
  /\ Utils.prefix (Utils.arg_step p ("--prefix=" ++ v))
     = Some (Utils.option_value ("--prefix=" ++ v)).
Proof. destruct v; repeat split; reflexivity. Qed.

Lemma list_steps (p : Utils.Parsed) (v : string) :
  Utils.whitelist (Utils.arg_step p ("--whitelist=" ++ v))
  = Utils.option_list ("--whitelist=" ++ v)
  /\ Utils.exclude (Utils.arg_step p ("--exclude=" ++ v))
     = Utils.option_list ("--exclude=" ++ v)
  /\ Utils.redact (Utils.arg_step p ("--redact=" ++ v))
     = Utils.option_list ("--redact=" ++ v).
Proof. destruct v; repeat split; reflexivity. Qed.

(** X24: the value of --format=, --output= or --prefix= given last is cut
    at its first equals sign: after --output=a=b the output path is a,
    because the argument is split at every = and the second piece is
    taken. *)
Theorem scalar_option_cut_at_equals (args : list string) (v : string) :
  Utils.format (Utils.parseArgs (args ++ ["--format=" ++ v]))
  = split_head EQUALS v
  /\ Utils.output (Utils.parseArgs (args ++ ["--output=" ++ v]))
     = Some (split_head EQUALS v)
  /\ Utils.prefix (Utils.parseArgs (args ++ ["--prefix=" ++ v]))
     = Some (split_head EQUALS v).
Proof.
  unfold Utils.parseArgs. rewrite !fold_left_app. cbn [fold_left].
  set (p := fold_left Utils.arg_step args Utils.initial).
  destruct (scalar_steps p v) as (F & O & P). rewrite F, O, P.
  repeat split.
  - exact (option_value_cut "--format" v eq_refl).
  - exact (f_equal Some (option_value_cut "--output" v eq_refl)).
  - exact (f_equal Some (option_value_cut "--prefix" v eq_refl)).
Qed.

(** X25: the list that --whitelist=, --exclude= or --redact= given last
    yields is the value up to its first equals sign, split at the commas,
    each item trimmed; it is never the empty list (an empty value gives
    the one item that is the empty string) and no item has white space at
    its ends. *)
Theorem list_option_items (args : list string) (v : string) :
  let items := map trim (split "," (split_head EQUALS v)) in
  Utils.whitelist (Utils.parseArgs (args ++ ["--whitelist=" ++ v])) = items
  /\ Utils.exclude (Utils.parseArgs (args ++ ["--exclude=" ++ v])) = items
  /\ Utils.redact (Utils.parseArgs (args ++ ["--redact=" ++ v])) = items
  /\ items <> []
  /\ forallb trimmed items = true.
Proof.
  intros items. unfold Utils.parseArgs. rewrite !fold_left_app.
  cbn [fold_left].
  set (p := fold_left Utils.arg_step args Utils.initial).
  destruct (list_steps p v) as (W & E & R). rewrite W, E, R.
  unfold Utils.option_list.
  split; [|split; [|split; [|split]]].
  - exact (f_equal (fun s => map trim (split "," s))
             (option_value_cut "--whitelist" v eq_refl)).
  - exact (f_equal (fun s => map trim (split "," s))
             (option_value_cut "--exclude" v eq_refl)).
  - exact (f_equal (fun s => map trim (split "," s))
             (option_value_cut "--redact" v eq_refl)).
  - unfold items, split.
    destruct (split_pieces "," (split_head EQUALS v)). discriminate.
  - apply forallb_forall. intros x Hx. unfold items in Hx.
    apply in_map_iff in Hx as (y & <- & _). apply trim_trimmed.
Qed.

(* ----------------------------------------------------------------- *)
(** *** The command *)

Section Command.
Variable World : Type.
Variable existsSync : World -> string -> bool.
Variable readFileSync : World -> string -> result string.
Variable mkdirSync : World -> string -> World * option string.
Variable writeFileSync : World -> string -> string -> World * option string.
Variable dirname : string -> string.
Variable yaml_dump : JSObject -> string.
Variable regexp_ext : string -> result (string -> bool).

Let convert :=
  convertEnv World existsSync readFileSync mkdirSync writeFileSync dirname
    yaml_dump regexp_ext.
Let run :=
  Cli.main World existsSync readFileSync mkdirSync writeFileSync dirname
    yaml_dump regexp_ext.

(** X26: when some argument is --help or -h, the command prints the help
    text and exits with code 0 without looking at the format or at any
    file, whatever the other arguments are. *)
Theorem help_comes_first (w : World) (args : list string) :
  existsb is_help_arg args = true ->
  run w args
  = {| Cli.exit_code := 0; Cli.stdout := [Utils.help_text];
       Cli.stderr := []; Cli.world := w |}.
Proof.
  intros H. unfold run, Cli.main.
  replace (Utils.help (Utils.parseArgs args)) with true; auto.
  unfold Utils.parseArgs. now rewrite help_flag.
Qed.

(** X27: without a help argument, a format that is not exactly json, yaml
    or js makes the command exit with code 1, print nothing on the
    standard output and touch no file; the test is case-sensitive, so a
    format such as JSON is refused although formatOutput, which lowers the
    case, would accept it. *)
Theorem format_checked_exactly (w : World) (args : list string)
  (obj : JSObject) :
  existsb is_help_arg args = false ->
  Cli.includes Cli.validFormats (Utils.format (Utils.parseArgs args)) = false ->
  Cli.exit_code World (run w args) = 1
  /\ Cli.world World (run w args) = w
  /\ Cli.stdout World (run w args) = []
  /\ (Cli.includes Cli.validFormats
        (toLowerCase (Utils.format (Utils.parseArgs args))) = true ->
      exists text,
        formatOutput yaml_dump obj (Utils.format (Utils.parseArgs args))
        = Ok text).
Proof.
  intros H F. unfold run, Cli.main.
  replace (Utils.help (Utils.parseArgs args)) with false
    by (unfold Utils.parseArgs; now rewrite help_flag).
  rewrite F. cbn. repeat split.
  intros L. unfold formatOutput. unfold Cli.includes, Cli.validFormats in L.
  cbn [existsb] in L. rewrite orb_false_r in L.
  destruct (String.eqb (toLowerCase _) "json"); [now eexists|].
  destruct (String.eqb (toLowerCase _) "yaml"); [now eexists|].
  destruct (String.eqb (toLowerCase _) "js"); [now eexists|].
  discriminate.
Qed.

(** X28: without help and example arguments and with a non-empty output
    path, a run that exits with code 0 prints exactly one line, Output
    written to <path>, and not the converted text, which it wrote to that
    path. *)
Theorem notice_instead_of_data (w : World) (args : list string) (out : string) :
  existsb is_help_arg args = false ->
  existsb is_example_arg args = false ->
  Utils.output (Utils.parseArgs args) = Some out ->
  is_empty out = false ->
  Cli.exit_code World (run w args) = 0 ->
  Cli.stdout World (run w args) = [("Output written to " ++ out)%string]
  /\ exists text,
       Utils.writeFile World existsSync mkdirSync writeFileSync dirname
         w out text
       = (Cli.world World (run w args), Ok tt).
Proof.
  intros H G O N. unfold run, Cli.main.
  replace (Utils.help (Utils.parseArgs args)) with false
    by (unfold Utils.parseArgs; now rewrite help_flag).
  assert (G' : Utils.generateExample (Utils.parseArgs args) = false)
    by (unfold Utils.parseArgs; now rewrite example_flag).
  destruct (negb (Cli.includes Cli.validFormats _)); [discriminate|].
  set (options := Cli.options_of (Utils.parseArgs args)).
  destruct (success (returned World
              (convertEnv World existsSync readFileSync mkdirSync
                 writeFileSync dirname yaml_dump regexp_ext w options)))
    eqn:S; [|discriminate].
  intros _. cbn [negb Cli.stdout Cli.world].
  destruct (output_written World existsSync readFileSync mkdirSync
              writeFileSync dirname yaml_dump regexp_ext w options out)
    as (text & D & M & Wr); auto.
  rewrite M, O. cbn [Filters.truthy]. rewrite N. cbn.
  split; [|now exists text].
  replace (is_empty ("Output written to " ++ out)) with false by reflexivity.
  reflexivity.
Qed.
End Command.

Lemma help_comes_first_witness :
  MemFS.main [] ["--format=xml"; "-h"; "missing.env"]
  = {| Cli.exit_code := 0; Cli.stdout := [Utils.help_text];
       Cli.stderr := []; Cli.world := [] |}.
Proof.
  exact (help_comes_first MemFS.World MemFS.existsSync MemFS.readFileSync
           MemFS.mkdirSync MemFS.writeFileSync MemFS.dirname MemFS.yaml_dump
           MemFS.regexp_ext [] ["--format=xml"; "-h"; "missing.env"]
           eq_refl).
Defined.

Lemma format_checked_exactly_witness :
  Cli.exit_code MemFS.World (MemFS.main [(".env", "A=1")] ["--format=JSON"])
  = 1
  /\ Index.formatOutput MemFS.yaml_dump [("A", "1")] "JSON"
     = Ok (JSON_stringify [("A", "1")]).
Proof.
  destruct (format_checked_exactly MemFS.World MemFS.existsSync
              MemFS.readFileSync MemFS.mkdirSync MemFS.writeFileSync
              MemFS.dirname MemFS.yaml_dump MemFS.regexp_ext
              [(".env", "A=1")] ["--format=JSON"] [("A", "1")]
              eq_refl eq_refl) as (E & _ & _ & _).
  split; [exact E | reflexivity].
Defined.

Lemma notice_instead_of_data_witness :
  Cli.stdout MemFS.World
    (MemFS.main [(".env", "A=1")] ["--output=out.json"])
  = ["Output written to out.json"].
Proof.
  exact (proj1
    (notice_instead_of_data MemFS.World MemFS.existsSync MemFS.readFileSync
       MemFS.mkdirSync MemFS.writeFileSync MemFS.dirname MemFS.yaml_dump
       MemFS.regexp_ext [(".env", "A=1")] ["--output=out.json"] "out.json"
       eq_refl eq_refl eq_refl eq_refl eq_refl)).
Defined.
